(** * Events.ino: switch debounce with edge interrupts and a four-state indicator

    A shallow embedding of [src/Events/Events.ino] (an Energia sketch for the
    MSP430G2553).  The sketch has two interrupt service routines, [falling] and
    [rising], and a main [loop] that polls the variables they write.

    - Integers are [Z] with the wrap-around of the target written out: [int]
      is 16 bits wide and signed ([to_int]), [unsigned long] is 32 bits wide
      ([to_ulong]).
    - The hardware the sketch talks to (millisecond counter, level of pin S2,
      the interrupt attached to S2, the two LEDs, the serial line) is part of
      the machine state, next to the global variables of the sketch.
    - [press_block], [release_block], [service], [flash_block] and [loop] are
      the statements of [loop] run without interruption.
    - [exec] runs one statement at a time: every statement of [loop] that reads
      or writes something the interrupt routines touch is a program point of
      its own, and the time test of lines 69 and 80 is two (the call of
      [millis()], then the read of [last_time]), so that in a trace ([run]) an
      edge interrupt or a tick of the millisecond counter can come between any
      two of them. *)

From Stdlib Require Import ZArith List Bool String Lia.
Import ListNotations.
Open Scope Z_scope.

(** ** Constants of the sketch (lines 26-34) *)

Definition DEBOUNCE_TIME : Z := 50.
Definition OFF : Z := 0.
Definition ON : Z := 1.
Definition SLOW_FLASH : Z := 2.
Definition FAST_FLASH : Z := 3.
Definition SLOW : Z := 1000.
Definition FAST : Z := 250.

(** ** Integer types of the target *)

(** [unsigned long]: 32 bits. *)
Definition to_ulong (z : Z) : Z := z mod 2 ^ 32.

(** [int]: 16 bits, two's complement. *)
Definition to_int (z : Z) : Z := (z + 2 ^ 15) mod 2 ^ 16 - 2 ^ 15.

(** ** Machine state *)

(** Edge selection of [attachInterrupt].  The sketch only ever attaches
    [falling] with [FALLING] and [rising] with [RISING], so the mode also names
    the handler. *)
Inductive edge : Type := FALLING | RISING.

(** What was sent to the serial port. *)
Inductive serial_item : Type :=
| Print (s : string)        (* Serial.print("...")   *)
| PrintlnInt (n : Z)        (* Serial.println(int)   *)
| Println (s : string).     (* Serial.println("...") *)

Record Machine : Type := mkMachine {
  (* hardware *)
  clock : Z;                    (* value returned by millis() *)
  S2 : bool;                    (* level of the switch pin, true = HIGH *)
  isr : option edge;            (* interrupt attached to S2 *)
  RED_LED : bool;
  GREEN_LED : bool;
  serial : list serial_item;    (* output so far, oldest first *)
  (* volatile globals, lines 37-39 *)
  last_time : Z;
  fall_count : Z;
  rise_count : Z;
  (* globals, lines 42-47 *)
  pressed : bool;
  led : bool;
  flash : bool;
  last_flash : Z;
  flash_time : Z;
  state : Z
}.

(** Field updates. *)
Definition set_clock (v : Z) (m : Machine) : Machine :=
  let 'mkMachine _ b c d e f g h i j k l n o p := m in mkMachine v b c d e f g h i j k l n o p.
Definition set_S2 (v : bool) (m : Machine) : Machine :=
  let 'mkMachine a _ c d e f g h i j k l n o p := m in mkMachine a v c d e f g h i j k l n o p.
Definition set_isr (v : option edge) (m : Machine) : Machine :=
  let 'mkMachine a b _ d e f g h i j k l n o p := m in mkMachine a b v d e f g h i j k l n o p.
Definition set_RED_LED (v : bool) (m : Machine) : Machine :=
  let 'mkMachine a b c _ e f g h i j k l n o p := m in mkMachine a b c v e f g h i j k l n o p.
Definition set_GREEN_LED (v : bool) (m : Machine) : Machine :=
  let 'mkMachine a b c d _ f g h i j k l n o p := m in mkMachine a b c d v f g h i j k l n o p.
Definition set_serial (v : list serial_item) (m : Machine) : Machine :=
  let 'mkMachine a b c d e _ g h i j k l n o p := m in mkMachine a b c d e v g h i j k l n o p.
Definition set_last_time (v : Z) (m : Machine) : Machine :=
  let 'mkMachine a b c d e f _ h i j k l n o p := m in mkMachine a b c d e f v h i j k l n o p.
Definition set_fall_count (v : Z) (m : Machine) : Machine :=
  let 'mkMachine a b c d e f g _ i j k l n o p := m in mkMachine a b c d e f g v i j k l n o p.
Definition set_rise_count (v : Z) (m : Machine) : Machine :=
  let 'mkMachine a b c d e f g h _ j k l n o p := m in mkMachine a b c d e f g h v j k l n o p.
Definition set_pressed (v : bool) (m : Machine) : Machine :=
  let 'mkMachine a b c d e f g h i _ k l n o p := m in mkMachine a b c d e f g h i v k l n o p.
Definition set_led (v : bool) (m : Machine) : Machine :=
  let 'mkMachine a b c d e f g h i j _ l n o p := m in mkMachine a b c d e f g h i j v l n o p.
Definition set_flash (v : bool) (m : Machine) : Machine :=
  let 'mkMachine a b c d e f g h i j k _ n o p := m in mkMachine a b c d e f g h i j k v n o p.
Definition set_last_flash (v : Z) (m : Machine) : Machine :=
  let 'mkMachine a b c d e f g h i j k l _ o p := m in mkMachine a b c d e f g h i j k l v o p.
Definition set_flash_time (v : Z) (m : Machine) : Machine :=
  let 'mkMachine a b c d e f g h i j k l n _ p := m in mkMachine a b c d e f g h i j k l n v p.
Definition set_state (v : Z) (m : Machine) : Machine :=
  let 'mkMachine a b c d e f g h i j k l n o _ := m in mkMachine a b c d e f g h i j k l n o v.

(** ** The calls into the Energia core *)

Definition millis (m : Machine) : Z := clock m.
Definition digitalRead_S2 (m : Machine) : bool := S2 m.
Definition attachInterrupt (mode : edge) (m : Machine) : Machine := set_isr (Some mode) m.
Definition Serial_print (s : string) (m : Machine) : Machine :=
  set_serial (serial m ++ [Print s]) m.
Definition Serial_println_int (n : Z) (m : Machine) : Machine :=
  set_serial (serial m ++ [PrintlnInt n]) m.
Definition Serial_println (s : string) (m : Machine) : Machine :=
  set_serial (serial m ++ [Println s]) m.

(** ** Interrupt service routines (lines 133-144) *)

Definition falling (m : Machine) : Machine :=
  let m := set_fall_count (to_int (fall_count m + 1)) m in   (* fall_count++ *)
  set_last_time (millis m) m.                                 (* last_time = millis() *)

Definition rising (m : Machine) : Machine :=
  let m := set_rise_count (to_int (rise_count m + 1)) m in   (* rise_count++ *)
  set_last_time (millis m) m.                                 (* last_time = millis() *)

(** ** The conditions of [loop] *)

(** Line 69, first conjunct: [fall_count]. *)
Definition fall_seen (m : Machine) : bool := negb (fall_count m =? 0).
(** Lines 69 and 80, second conjunct: [(millis() - last_time) > DEBOUNCE_TIME],
    an [unsigned long] subtraction. *)
Definition quiet (m : Machine) : bool :=
  DEBOUNCE_TIME <? to_ulong (millis m - last_time m).
(** The same comparison when [millis()] returned [now] before [last_time] is
    read. *)
Definition settled_at (now : Z) (m : Machine) : bool :=
  DEBOUNCE_TIME <? to_ulong (now - last_time m).
(** Line 80, first conjunct: [rise_count]. *)
Definition rise_seen (m : Machine) : bool := negb (rise_count m =? 0).
(** Line 122: [flash && (millis()-last_flash > flash_time)]; [flash_time] is an
    [int] converted to [unsigned long] for the comparison. *)
Definition flash_due (m : Machine) : bool :=
  flash m && (to_ulong (flash_time m) <? to_ulong (millis m - last_flash m)).

Definition press_settled (m : Machine) : bool := fall_seen m && quiet m.
Definition release_settled (m : Machine) : bool := rise_seen m && quiet m.

(** ** The statements of [loop], run without interruption *)

Definition pressed_msg : string := "Switch pressed. Count: ".
Definition released_msg : string := "Switch released. Count: ".

(** Lines 69-78. *)
Definition press_block (m : Machine) : Machine :=
  if press_settled m then
    let m := Serial_print pressed_msg m in
    let m := Serial_println_int (fall_count m) m in
    let m := set_fall_count 0 m in
    let m := set_pressed true m in
    if negb (digitalRead_S2 m) then
      let m := attachInterrupt RISING m in
      set_RED_LED true m
    else m
  else m.

(** Lines 80-88. *)
Definition release_block (m : Machine) : Machine :=
  if release_settled m then
    let m := Serial_print released_msg m in
    let m := Serial_println_int (rise_count m) m in
    let m := set_rise_count 0 m in
    if digitalRead_S2 m then
      let m := attachInterrupt FALLING m in
      set_RED_LED false m
    else m
  else m.

(** Lines 94-118: the [switch] on [state]; there is no [default]. *)
Definition transition (m : Machine) : Machine :=
  if state m =? OFF then
    let m := set_GREEN_LED true m in
    let m := set_state ON m in
    Serial_println "State: ON" m
  else if state m =? ON then
    let m := set_flash true m in
    let m := set_flash_time SLOW m in
    let m := set_state SLOW_FLASH m in
    Serial_println "State: SLOW FLASH" m
  else if state m =? SLOW_FLASH then
    let m := set_flash true m in
    let m := set_flash_time FAST m in
    let m := set_state FAST_FLASH m in
    Serial_println "State: FAST FLASH" m
  else if state m =? FAST_FLASH then
    let m := set_flash false m in
    let m := set_GREEN_LED false m in
    let m := set_state OFF m in
    Serial_println "State: OFF" m
  else m.

(** Lines 91-119. *)
Definition service (m : Machine) : Machine :=
  if pressed m then transition (set_pressed false m) else m.

(** Lines 123-124. *)
Definition toggle (m : Machine) : Machine :=
  let m := set_led (negb (led m)) m in
  set_GREEN_LED (led m) m.

(** Lines 122-126. *)
Definition flash_block (m : Machine) : Machine :=
  if flash_due m then
    let m := toggle m in
    set_last_flash (millis m) m
  else m.

(** Lines 66-128. *)
Definition loop (m : Machine) : Machine :=
  flash_block (service (release_block (press_block m))).

(** Lines 52-61 of [setup]. *)
Definition setup_pins (m : Machine) : Machine :=
  let m := attachInterrupt FALLING m in
  let m := set_RED_LED false m in
  set_GREEN_LED false m.

(** Line 63. *)
Definition setup_stamp (m : Machine) : Machine := set_last_time (millis m) m.

Definition setup (m : Machine) : Machine := setup_stamp (setup_pins m).

(** The machine at reset, with the initialisers of lines 37-47. *)
Definition reset : Machine :=
  {| clock := 0; S2 := true; isr := None; RED_LED := false; GREEN_LED := false;
     serial := [];
     last_time := 0; fall_count := 0; rise_count := 0;
     pressed := false; led := false; flash := false; last_flash := 0;
     flash_time := 1000; state := OFF |}.

(** ** The sketch with interrupts: one statement at a time *)

(** Program points, named by source line.  [L69a]/[L69b] and [L80a]/[L80b]
    are the two conjuncts of the conditions on lines 69 and 80 ([&&] evaluates
    the second only if the first holds).  The second conjunct,
    [(millis() - last_time) > DEBOUNCE_TIME], takes two steps, its operands
    in the order written: at [L69b] ([L80b]) [millis()] is called, and at
    [L69c now] ([L80c now]) the volatile [last_time] is read and compared
    with the value [now] that the call returned; an interrupt can be taken
    in between.  The statements of lines 91-119 and of lines 122-126 read and
    write nothing the interrupt routines use, and line 122 calls [millis()]
    once; they are one step each. *)
Inductive pc : Type :=
| L55 | L63
| L69a | L69b | L69c (now : Z) | L70 | L71 | L72 | L73 | L74 | L75 | L76
| L80a | L80b | L80c (now : Z) | L81 | L82 | L83 | L84 | L85 | L86
| L91 | L122 | L123 | L125.

Definition Config : Type := (pc * Machine)%type.

(** The main program executes the statement at its program point. *)
Definition exec (c : Config) : Config :=
  let (p, m) := c in
  match p with
  | L55 => (L63, setup_pins m)
  | L63 => (L69a, setup_stamp m)
  | L69a => if fall_seen m then (L69b, m) else (L80a, m)
  | L69b => (L69c (millis m), m)
  | L69c now => if settled_at now m then (L70, m) else (L80a, m)
  | L70 => (L71, Serial_print pressed_msg m)
  | L71 => (L72, Serial_println_int (fall_count m) m)
  | L72 => (L73, set_fall_count 0 m)
  | L73 => (L74, set_pressed true m)
  | L74 => if negb (digitalRead_S2 m) then (L75, m) else (L80a, m)
  | L75 => (L76, attachInterrupt RISING m)
  | L76 => (L80a, set_RED_LED true m)
  | L80a => if rise_seen m then (L80b, m) else (L91, m)
  | L80b => (L80c (millis m), m)
  | L80c now => if settled_at now m then (L81, m) else (L91, m)
  | L81 => (L82, Serial_print released_msg m)
  | L82 => (L83, Serial_println_int (rise_count m) m)
  | L83 => (L84, set_rise_count 0 m)
  | L84 => if digitalRead_S2 m then (L85, m) else (L91, m)
  | L85 => (L86, attachInterrupt FALLING m)
  | L86 => (L91, set_RED_LED false m)
  | L91 => (L122, service m)
  | L122 => if flash_due m then (L123, m) else (L69a, m)
  | L123 => (L125, toggle m)
  | L125 => (L69a, set_last_flash (millis m) m)
  end.

(** The millisecond counter advances. *)
Definition tick (m : Machine) : Machine := set_clock (to_ulong (clock m + 1)) m.

(** The switch pin makes a transition; the attached routine runs if it was
    attached for that direction. *)
Definition pin_edge (e : edge) (m : Machine) : Machine :=
  let m := set_S2 (match e with RISING => true | FALLING => false end) m in
  match isr m, e with
  | Some FALLING, FALLING => falling m
  | Some RISING, RISING => rising m
  | _, _ => m
  end.

Inductive event : Type :=
| Tick                (* one millisecond passes *)
| Edge (e : edge)     (* a transition on S2 *)
| Run                 (* the main program executes one statement *)
| Poll.               (* at the top of [loop]: one iteration, uninterrupted *)

Definition step (c : Config) (ev : event) : Config :=
  match ev with
  | Tick => (fst c, tick (snd c))
  | Edge e => (fst c, pin_edge e (snd c))
  | Run => exec c
  | Poll => match fst c with L69a => (L69a, loop (snd c)) | _ => c end
  end.

Definition run (tr : list event) (c : Config) : Config := fold_left step tr c.

(** The sketch after power-up, about to execute [setup]. *)
Definition power_up : Config := (L55, reset).

(** ** Observations and scenarios *)

(** A Pressed event as the state machine receives it: the flag set on line 73
    and consumed on lines 91-92. *)
Definition press_event (m : Machine) : Machine := service (set_pressed true m).

(** The successor relation of the indicator cycle as the specification words
    it: Off -> On -> SlowFlash -> FastFlash -> Off. *)
Definition successor (s : Z) : Z :=
  if s =? OFF then ON
  else if s =? ON then SLOW_FLASH
  else if s =? SLOW_FLASH then FAST_FLASH
  else if s =? FAST_FLASH then OFF
  else s.

(** The four values [state] is meant to take. *)
Definition indicator_state (s : Z) : Prop :=
  s = OFF \/ s = ON \/ s = SLOW_FLASH \/ s = FAST_FLASH.

(** Once a Pressed event has been taken, state Off means that the machine
    came through FastFlash: the flash is disabled and the green output low. *)
Definition off_is_dark (m : Machine) : Prop :=
  state m = OFF -> flash m = false /\ GREEN_LED m = false.

(** The flash is enabled exactly in the two flashing states. *)
Definition flash_matches_state (m : Machine) : Prop :=
  flash m = true <-> (state m = SLOW_FLASH \/ state m = FAST_FLASH).

(** What the indicator state machine sees: a Pressed event, a pass through
    the flash service (lines 122-126), or a millisecond going by. *)
Inductive sm_input : Type := SmPressed | SmFlash | SmTick.

Definition sm_step (m : Machine) (i : sm_input) : Machine :=
  match i with
  | SmPressed => press_event m
  | SmFlash => flash_block m
  | SmTick => tick m
  end.

Definition sm_run (l : list sm_input) (m : Machine) : Machine := fold_left sm_step l m.

Definition is_SmPressed (i : sm_input) : bool :=
  match i with SmPressed => true | _ => false end.

Definition presses (l : list sm_input) : nat := List.length (filter is_SmPressed l).

(** Number of "Switch pressed" / "Switch released" reports on the serial line. *)
Definition is_report (msg : string) (it : serial_item) : bool :=
  match it with Print s => String.eqb s msg | _ => false end.

Definition pressed_events (m : Machine) : nat :=
  List.length (filter (is_report pressed_msg) (serial m)).

Definition released_events (m : Machine) : nat :=
  List.length (filter (is_report released_msg) (serial m)).

(** Number of times the routine for direction [e] runs along a trace. *)
Definition fires (e : edge) (ev : event) (m : Machine) : bool :=
  match ev, e, isr m with
  | Edge FALLING, FALLING, Some FALLING => true
  | Edge RISING, RISING, Some RISING => true
  | _, _, _ => false
  end.

Fixpoint interrupts (e : edge) (tr : list event) (c : Config) : nat :=
  match tr with
  | [] => O
  | ev :: tr' =>
      ((if fires e ev (snd c) then 1 else 0) + interrupts e tr' (step c ev))%nat
  end.

(** Traces in which every pass through [loop] is uninterrupted: the main
    program only moves by [Poll]. *)
Definition is_Run (ev : event) : bool :=
  match ev with Run => true | _ => false end.

Definition uninterrupted (tr : list event) : Prop :=
  forallb (fun ev => negb (is_Run ev)) tr = true.

(** A burst: the switch bounces and time passes while the main program does
    not run. *)
Definition is_Edge_or_Tick (ev : event) : bool :=
  match ev with Tick | Edge _ => true | _ => false end.

Definition is_falling_edge (ev : event) : bool :=
  match ev with Edge FALLING => true | _ => false end.

(** Falling edges along a trace. *)
Definition falls (tr : list event) : nat := List.length (filter is_falling_edge tr).

(** Milliseconds that pass along a trace. *)
Fixpoint ticks (tr : list event) : nat :=
  match tr with
  | [] => O
  | Tick :: tr' => S (ticks tr')
  | _ :: tr' => ticks tr'
  end.

(** The last edge of direction [e] in [tr] was [n] milliseconds before the
    end of [tr]. *)
Definition since_last (e : edge) (tr : list event) (n : nat) : Prop :=
  exists tr1 tr2,
    tr = tr1 ++ Edge e :: tr2 /\ ~ In (Edge e) tr2 /\ ticks tr2 = n.

(** Bookkeeping for traces with uninterrupted passes: while the count of
    direction [e] is non-zero, the routine of that direction is the one
    attached, and [millis() - last_time] is the time since the last edge of
    that direction (modulo 2^32). *)
Definition window_of (e : edge) (tr : list event) (m : Machine) : Prop :=
  isr m = Some e
  /\ exists n, since_last e tr n
               /\ to_ulong (millis m - last_time m) = to_ulong (Z.of_nat n).

Definition tracked (tr : list event) (c : Config) : Prop :=
  fst c = L69a
  /\ (fall_count (snd c) <> 0 -> window_of FALLING tr (snd c))
  /\ (rise_count (snd c) <> 0 -> window_of RISING tr (snd c)).

(** The program points between the test of line 69 and the report of line 70. *)
Definition about_to_report (p : pc) : bool :=
  match p with L69b | L69c _ | L70 => true | _ => false end.

(** The program points between the test of line 80 and the report of line 81. *)
Definition about_to_report_release (p : pc) : bool :=
  match p with L80b | L80c _ | L81 => true | _ => false end.

(** The sketch after [setup] has run at time 0 with the switch released. *)
Definition booted : Config := run [Run; Run] power_up.

(** The machines the sketch can be in: after any inputs to the indicator
    state machine from reset, or after any trace of the whole sketch from
    power-up. *)
Definition reached (m : Machine) : Prop :=
  (exists l, m = sm_run l reset) \/ (exists tr, m = snd (run tr power_up)).

(** The scenario of falling edges at 0, 5, 10 and 12 ms, then silence, with
    one uninterrupted pass through [loop] every millisecond: what happens
    during millisecond [t], and the trace up to and including millisecond [T]. *)
Definition edge_times : list nat := [0; 5; 10; 12]%nat.

Definition during (t : nat) : list event :=
  (if existsb (Nat.eqb t) edge_times then [Edge FALLING] else []) ++ [Poll].

Fixpoint scenario (T : nat) : list event :=
  match T with
  | O => during O
  | S T' => scenario T' ++ Tick :: during T
  end.

(** The machine once the press of the scenario has been reported, at clock
    value [c]: the count is reset, the rising interrupt is attached, the red
    LED is on and the indicator is in state On. *)
Definition after_press (c : Z) : Machine :=
  {| clock := c; S2 := false; isr := Some RISING; RED_LED := true; GREEN_LED := true;
     serial := [Print pressed_msg; PrintlnInt 4; Println "State: ON"];
     last_time := 12; fall_count := 0; rise_count := 0;
     pressed := false; led := false; flash := false; last_flash := 0;
     flash_time := 1000; state := ON |}.

(** A press whose bounce comes back while [loop] is between the report on
    line 71 and the reset on line 72. *)
Definition late_bounce_trace : list event :=
  [Run; Run; Edge FALLING] ++ repeat Tick 51
  ++ [Run; Run; Run; Run; Run]       (* lines 69, 69, 69, 70, 71 *)
  ++ [Edge RISING; Edge FALLING]     (* the contact bounces once more *)
  ++ [Run]                           (* line 72 *)
  ++ [Run; Run; Run; Run]            (* lines 73, 74, 75, 76 *)
  ++ [Run; Run; Run].                (* lines 80, 91, 122 *)

(** A press whose bounce comes back right after the test on line 69. *)
Definition bounce_after_test_trace : list event :=
  [Run; Run; Edge FALLING] ++ repeat Tick 51
  ++ [Run; Run; Run]                 (* line 69: count, millis(), comparison *)
  ++ [Edge RISING; Edge FALLING]     (* the contact bounces once more *)
  ++ [Run; Run; Run; Run].           (* lines 70, 71, 72, 73 *)

(** A press at t = 0 whose bounce comes back at t = 11, after line 69 has
    called [millis()] at t = 10 and before it reads [last_time]. *)
Definition sampled_then_bounced : list event :=
  [Run; Run; Edge FALLING] ++ repeat Tick 10
  ++ [Run; Run]                      (* line 69: count, millis() *)
  ++ [Tick; Edge RISING; Edge FALLING].  (* t = 11: the contact bounces *)

Definition early_report_trace : list event :=
  sampled_then_bounced
  ++ [Run]                           (* line 69: comparison *)
  ++ [Run; Run; Run; Run].           (* lines 70, 71, 72, 73 *)

(** A press whose bounce comes back between the reset on line 72 and the
    re-arming on line 75, followed by 51 ms of quiet. *)
Definition stale_count_trace : list event :=
  [Run; Run; Edge FALLING] ++ repeat Tick 51
  ++ [Run; Run; Run; Run; Run; Run]  (* lines 69, 69, 69, 70, 71, 72 *)
  ++ [Edge RISING; Edge FALLING]     (* the contact bounces once more *)
  ++ [Run; Run; Run; Run]            (* lines 73, 74, 75, 76 *)
  ++ [Run; Run; Run]                 (* lines 80, 91, 122 *)
  ++ repeat Tick 51.

(** ** Further observations *)

(** [k] milliseconds go by. *)
Definition wait (k : nat) (m : Machine) : Machine := Nat.iter k tick m.

(** Rising edges along a trace. *)
Definition is_rising_edge (ev : event) : bool :=
  match ev with Edge RISING => true | _ => false end.

Definition rises (tr : list event) : nat := List.length (filter is_rising_edge tr).

(** The sketch is waiting for the release of the switch: the rising interrupt
    is the one attached. *)
Definition waiting_for_release (m : Machine) : bool :=
  match isr m with Some RISING => true | _ => false end.

(** The red LED against the attached interrupt.  Lines 75-76 and 85-86 write
    the two one after the other, so between them (at [L76] and [L86]) only the
    new interrupt is known. *)
Definition red_shows_armed (c : Config) : Prop :=
  match fst c with
  | L76 => isr (snd c) = Some RISING
  | L86 => isr (snd c) = Some FALLING
  | _ => RED_LED (snd c) = waiting_for_release (snd c)
  end.



(** The program points at which [pressed] can be set: from line 73 to its
    consumption on line 92. *)
Definition flag_may_be_set (p : pc) : bool :=
  match p with
  | L74 | L75 | L76 | L80a | L80b | L80c _ | L81 | L82 | L83 | L84 | L85 | L86
  | L91 => true
  | _ => false
  end.

(** Presses reported on the serial line that the state machine has not taken
    yet: one between the report of line 70 and line 73, or one flagged. *)
Definition owed (c : Config) : Z :=
  match fst c with
  | L71 | L72 | L73 => 1
  | _ => if pressed (snd c) then 1 else 0
  end.

Definition presses_counted (c : Config) : Prop :=
  indicator_state (state (snd c))
  /\ (state (snd c) + owed c) mod 4 = Z.of_nat (pressed_events (snd c)) mod 4
  /\ (flag_may_be_set (fst c) = false -> pressed (snd c) = false).

(** The sum of the counts printed after "Switch pressed. Count: ", read off
    the serial line from the oldest item on; the flag says that the last item
    was that text. *)
Definition tally_step (st : bool * Z) (it : serial_item) : bool * Z :=
  match it with
  | Print s => (String.eqb s pressed_msg, snd st)
  | PrintlnInt n => (false, if fst st then snd st + n else snd st)
  | Println _ => (false, snd st)
  end.

Definition tally (l : list serial_item) : bool * Z := fold_left tally_step l (false, 0).

Definition reported_falls (m : Machine) : Z := snd (tally (serial m)).

Definition is_L71 (p : pc) : bool := match p with L71 => true | _ => false end.
Definition is_L72 (p : pc) : bool := match p with L72 => true | _ => false end.

(** With [n] falling interrupts taken so far: the count is at most [n], and so
    is what has been reported plus what is still in the count (at [L72] the
    count has just been printed and is already in the sum). *)
Definition tallied (c : Config) (n : nat) : Prop :=
  0 <= fall_count (snd c) <= Z.of_nat n
  /\ 0 <= reported_falls (snd c)
  /\ reported_falls (snd c) + (if is_L72 (fst c) then 0 else fall_count (snd c))
     <= Z.of_nat n
  /\ fst (tally (serial (snd c))) = is_L71 (fst c).

(** The program points from the passed count test of line 69 to the print of
    the count on line 71. *)
Definition in_press_report (p : pc) : bool :=
  match p with L69b | L69c _ | L70 | L71 => true | _ => false end.

(** Every press report is backed by a count of at least 1: the reports so far
    number at most the sum of their counts (at [L71] the text is out and the
    count still to come), and the count is at least 1 while a report is under
    way. *)
Definition backed (c : Config) : Prop :=
  Z.of_nat (pressed_events (snd c))
    <= reported_falls (snd c) + (if is_L71 (fst c) then 1 else 0)
  /\ (in_press_report (fst c) = true -> 1 <= fall_count (snd c)).

(** * Proofs *)

(** ** Simplification *)

Ltac unfold_prims :=
  unfold press_settled, release_settled, setup_pins, setup_stamp in *;
  unfold fall_seen, rise_seen, quiet, settled_at, flash_due, toggle, digitalRead_S2,
    attachInterrupt, Serial_print, Serial_println_int, Serial_println in *;
  unfold millis in *.

Ltac msimpl :=
  unfold_prims;
  cbn [clock S2 isr RED_LED GREEN_LED serial last_time fall_count rise_count
       pressed led flash last_flash flash_time state
       set_clock set_S2 set_isr set_RED_LED set_GREEN_LED set_serial
       set_last_time set_fall_count set_rise_count set_pressed set_led set_flash
       set_last_flash set_flash_time set_state
       fst snd andb negb] in *.

Ltac run_steps :=
  repeat (cbn [repeat run fold_left step exec]; msimpl;
          repeat match goal with H : _ = _ :> bool |- _ => rewrite H end).

(** ** [loop] is its statements run one after the other *)

Lemma run_app : forall tr1 tr2 c, run (tr1 ++ tr2) c = run tr2 (run tr1 c).
Proof. intros. unfold run. apply fold_left_app. Qed.

Lemma press_run : forall m,
  exists n, run (repeat Run n) (L69a, m) = (L80a, press_block m).
Proof.
  intros [ck s2 i r g se lt fc rc pr ld fl lf ft st].
  unfold press_block. msimpl.
  destruct (fc =? 0) eqn:E1; msimpl.
  - exists 1%nat. run_steps. reflexivity.
  - destruct (DEBOUNCE_TIME <? to_ulong (ck - lt)) eqn:E2.
    + destruct s2.
      * exists 8%nat. run_steps. reflexivity.
      * exists 10%nat. run_steps. reflexivity.
    + exists 3%nat. run_steps. reflexivity.
Qed.

Lemma release_run : forall m,
  exists n, run (repeat Run n) (L80a, m) = (L91, release_block m).
Proof.
  intros [ck s2 i r g se lt fc rc pr ld fl lf ft st].
  unfold release_block. msimpl.
  destruct (rc =? 0) eqn:E1; msimpl.
  - exists 1%nat. run_steps. reflexivity.
  - destruct (DEBOUNCE_TIME <? to_ulong (ck - lt)) eqn:E2.
    + destruct s2.
      * exists 9%nat. run_steps. reflexivity.
      * exists 7%nat. run_steps. reflexivity.
    + exists 3%nat. run_steps. reflexivity.
Qed.

Lemma flash_run : forall m,
  exists n, run (repeat Run n) (L122, m) = (L69a, flash_block m).
Proof.
  intros m. unfold flash_block.
  destruct (flash_due m) eqn:E.
  - exists 3%nat. cbn [repeat run fold_left step exec]. rewrite E. reflexivity.
  - exists 1%nat. cbn [repeat run fold_left step exec]. rewrite E. reflexivity.
Qed.

(** The two statements of [setup]. *)
Lemma booted_is_setup : booted = (L69a, setup reset).
Proof. reflexivity. Qed.

(** An uninterrupted pass ([Poll]) is a sequence of single statements. *)
Lemma loop_run : forall m,
  exists n, run (repeat Run n) (L69a, m) = step (L69a, m) Poll.
Proof.
  intros m. cbn [step fst snd]. unfold loop.
  destruct (press_run m) as [n1 H1].
  destruct (release_run (press_block m)) as [n2 H2].
  destruct (flash_run (service (release_block (press_block m)))) as [n3 H3].
  exists (n1 + (n2 + (1 + n3)))%nat.
  rewrite !repeat_app, !run_app, H1, H2.
  cbn [repeat run fold_left step exec]. exact H3.
Qed.

(** ** What each block of [loop] leaves alone *)

Ltac case_cond :=
  match goal with
  | |- context [?a =? ?b] => destruct (a =? b) eqn:?
  | |- context [?a <? ?b] => destruct (a <? b) eqn:?
  | |- context [if ?b then _ else _] => is_var b; destruct b
  | |- context [negb ?b] => is_var b; destruct b
  | |- context [andb ?b _] => is_var b; destruct b
  end.

Ltac by_cases :=
  intros;
  repeat match goal with m : Machine |- _ => destruct m end;
  unfold loop, flash_block, service, transition, release_block, press_block,
    press_event, pressed_events, released_events, tick, pin_edge, falling, rising in *;
  msimpl;
  repeat (case_cond; msimpl);
  rewrite ?filter_app, ?length_app;
  cbn [filter is_report String.eqb Ascii.eqb Bool.eqb pressed_msg released_msg
       List.length];
  rewrite ?Nat.add_0_r;
  try reflexivity; try discriminate; try congruence.

Lemma press_settled_iff : forall m,
  press_settled m = true <->
  fall_count m <> 0 /\ DEBOUNCE_TIME < to_ulong (millis m - last_time m).
Proof.
  intros m. unfold press_settled, fall_seen, quiet.
  rewrite andb_true_iff, negb_true_iff, Z.eqb_neq, Z.ltb_lt. reflexivity.
Qed.

Lemma release_settled_iff : forall m,
  release_settled m = true <->
  rise_count m <> 0 /\ DEBOUNCE_TIME < to_ulong (millis m - last_time m).
Proof.
  intros m. unfold release_settled, rise_seen, quiet.
  rewrite andb_true_iff, negb_true_iff, Z.eqb_neq, Z.ltb_lt. reflexivity.
Qed.

Lemma press_block_idle : forall m, press_settled m = false -> press_block m = m.
Proof. intros m H. unfold press_block. rewrite H. reflexivity. Qed.

Lemma release_block_idle : forall m, release_settled m = false -> release_block m = m.
Proof. intros m H. unfold release_block. rewrite H. reflexivity. Qed.

Lemma press_block_fires : forall m,
  press_settled m = true ->
  serial (press_block m) = serial m ++ [Print pressed_msg; PrintlnInt (fall_count m)]
  /\ pressed (press_block m) = true
  /\ fall_count (press_block m) = 0.
Proof.
  intros m H. unfold press_block. rewrite H.
  destruct m as [ck s2 i r g se lt fc rc pr ld fl lf ft st]. msimpl.
  rewrite <- app_assoc. destruct s2; msimpl; repeat split; reflexivity.
Qed.

Lemma release_block_fires : forall m,
  release_settled m = true ->
  serial (release_block m) = serial m ++ [Print released_msg; PrintlnInt (rise_count m)]
  /\ pressed (release_block m) = pressed m
  /\ rise_count (release_block m) = 0.
Proof.
  intros m H. unfold release_block. rewrite H.
  destruct m as [ck s2 i r g se lt fc rc pr ld fl lf ft st]. msimpl.
  rewrite <- app_assoc. destruct s2; msimpl; repeat split; reflexivity.
Qed.

(** Lines 69-78 write [fall_count], [pressed], the serial line, the attached
    interrupt and the red LED, and nothing else. *)
Lemma press_block_frame : forall m,
  millis (press_block m) = millis m
  /\ last_time (press_block m) = last_time m
  /\ rise_count (press_block m) = rise_count m
  /\ state (press_block m) = state m
  /\ flash (press_block m) = flash m
  /\ released_events (press_block m) = released_events m.
Proof. repeat split; by_cases. Qed.

(** Lines 80-88 write [rise_count], the serial line, the attached interrupt
    and the red LED, and nothing else. *)
Lemma release_block_frame : forall m,
  millis (release_block m) = millis m
  /\ last_time (release_block m) = last_time m
  /\ fall_count (release_block m) = fall_count m
  /\ pressed (release_block m) = pressed m
  /\ state (release_block m) = state m
  /\ flash (release_block m) = flash m
  /\ pressed_events (release_block m) = pressed_events m.
Proof. repeat split; by_cases. Qed.

(** Lines 91-119 leave the switch variables and the hardware of the switch
    alone. *)
Lemma service_frame : forall m,
  millis (service m) = millis m
  /\ last_time (service m) = last_time m
  /\ fall_count (service m) = fall_count m
  /\ rise_count (service m) = rise_count m
  /\ isr (service m) = isr m
  /\ pressed_events (service m) = pressed_events m
  /\ released_events (service m) = released_events m.
Proof. repeat split; by_cases. Qed.

(** Lines 122-126 write [led], the green LED and [last_flash], and nothing
    else. *)
Lemma flash_block_frame : forall m,
  millis (flash_block m) = millis m
  /\ last_time (flash_block m) = last_time m
  /\ fall_count (flash_block m) = fall_count m
  /\ rise_count (flash_block m) = rise_count m
  /\ isr (flash_block m) = isr m
  /\ pressed (flash_block m) = pressed m
  /\ state (flash_block m) = state m
  /\ flash (flash_block m) = flash m
  /\ serial (flash_block m) = serial m.
Proof. repeat split; by_cases. Qed.

Lemma pressed_events_flash_block : forall m,
  pressed_events (flash_block m) = pressed_events m.
Proof.
  intros m. unfold pressed_events.
  destruct (flash_block_frame m) as (_ & _ & _ & _ & _ & _ & _ & _ & ->).
  reflexivity.
Qed.

Lemma rest_keeps_fall_count : forall m,
  fall_count (flash_block (service (release_block m))) = fall_count m.
Proof.
  intros m.
  destruct (flash_block_frame (service (release_block m))) as (_ & _ & -> & _).
  destruct (service_frame (release_block m)) as (_ & _ & -> & _).
  apply release_block_frame.
Qed.

Lemma rest_keeps_pressed_events : forall m,
  pressed_events (flash_block (service (release_block m))) = pressed_events m.
Proof.
  intros m. rewrite pressed_events_flash_block.
  destruct (service_frame (release_block m)) as (_ & _ & _ & _ & _ & -> & _).
  apply release_block_frame.
Qed.

Lemma pressed_events_press_block : forall m,
  press_settled m = true ->
  pressed_events (press_block m) = S (pressed_events m).
Proof.
  intros m H. unfold pressed_events.
  destruct (press_block_fires m H) as [-> _].
  rewrite filter_app, length_app. cbn. lia.
Qed.

(** ** The statements behind C1, one at a time *)

Ltac case_exec :=
  cbn [exec];
  try match goal with |- context [if ?b then _ else _] => destruct b eqn:? end;
  cbn [fst snd].

(** Whatever is interleaved with them, the statements of the main program
    add a press report only on line 70 ... *)
Lemma report_only_on_line_70 : forall p m,
  pressed_events (snd (exec (p, m))) =
  match p with L70 => S (pressed_events m) | _ => pressed_events m end.
Proof.
  intros p m. destruct p; case_exec; try reflexivity;
    try (apply service_frame); clear; by_cases; lia.
Qed.

(** ... write [fall_count] only on line 72 ... *)
Lemma count_written_only_on_line_72 : forall p m,
  fall_count (snd (exec (p, m))) =
  match p with L72 => 0 | _ => fall_count m end.
Proof.
  intros p m. destruct p; case_exec; try reflexivity;
    try (apply service_frame); clear; by_cases.
Qed.

(** ... and reach line 70 only through both conjuncts of line 69. *)
Lemma line_70_follows_test : forall p m,
  (fst (exec (p, m)) = L70 -> exists now, p = L69c now /\ settled_at now m = true)
  /\ (forall now, fst (exec (p, m)) = L69c now -> p = L69b /\ now = millis m)
  /\ (fst (exec (p, m)) = L69b -> p = L69a /\ fall_count m <> 0).
Proof.
  intros p m. destruct p; case_exec; (split; [|split]);
    try (intros H; discriminate H); try (intros k H; discriminate H).
  - intros _. split; [reflexivity|].
    unfold fall_seen in *. rewrite negb_true_iff in *. apply Z.eqb_neq. assumption.
  - intros k H. split; [reflexivity|]. congruence.
  - intros _. exists now. split; [reflexivity | assumption].
Qed.

Lemma environment_keeps_reports : forall m,
  pressed_events (tick m) = pressed_events m
  /\ forall e, pressed_events (pin_edge e m) = pressed_events m.
Proof.
  intros [ck s2 i r g se lt fc rc pr ld fl lf ft st]. split; [reflexivity|].
  intros e. destruct i as [[|]|], e; reflexivity.
Qed.

(** ** C1 *)

(** C1.  In a pass through [loop], when [fall_count] is non-zero and
    [millis() - last_time] exceeds [DEBOUNCE_TIME], lines 69-78 append exactly
    one "Switch pressed" report carrying the count, set [pressed] and reset
    [fall_count] to 0 (and the whole pass adds one report and ends with the
    count at 0); when either conjunct fails, lines 69-78 change nothing, the
    pass adds no report and leaves the count as it was. *)
Theorem press_settle_emits_once : forall m,
  (fall_count m <> 0 /\ DEBOUNCE_TIME < to_ulong (millis m - last_time m) ->
     serial (press_block m) = serial m ++ [Print pressed_msg; PrintlnInt (fall_count m)]
     /\ pressed (press_block m) = true
     /\ fall_count (press_block m) = 0
     /\ pressed_events (loop m) = S (pressed_events m)
     /\ fall_count (loop m) = 0)
  /\
  (~ (fall_count m <> 0 /\ DEBOUNCE_TIME < to_ulong (millis m - last_time m)) ->
     press_block m = m
     /\ pressed_events (loop m) = pressed_events m
     /\ fall_count (loop m) = fall_count m).
Proof.
  intros m. unfold loop. rewrite rest_keeps_fall_count, rest_keeps_pressed_events.
  split; intros H.
  - apply press_settled_iff in H.
    destruct (press_block_fires m H) as (Hs & Hp & Hc).
    repeat split; auto using pressed_events_press_block.
  - assert (E : press_settled m = false).
    { destruct (press_settled m) eqn:E; [|reflexivity].
      apply press_settled_iff in E. contradiction. }
    rewrite (press_block_idle m E). repeat split; reflexivity.
Qed.

Lemma press_settle_emits_once_witness :
  (let m := set_clock 100 (set_fall_count 3 (setup reset)) in
   serial (press_block m) = [Print pressed_msg; PrintlnInt 3]
   /\ pressed (press_block m) = true
   /\ fall_count (press_block m) = 0
   /\ pressed_events (loop m) = 1%nat
   /\ fall_count (loop m) = 0)
  /\
  (let m := set_clock 50 (set_fall_count 3 (setup reset)) in
   press_block m = m
   /\ pressed_events (loop m) = 0%nat
   /\ fall_count (loop m) = 3).
Proof.
  split.
  - apply (proj1 (press_settle_emits_once (set_clock 100 (set_fall_count 3 (setup reset))))).
    split; [discriminate | reflexivity].
  - apply (proj2 (press_settle_emits_once (set_clock 50 (set_fall_count 3 (setup reset))))).
    intros [_ H]. vm_compute in H. discriminate.
Defined.

(** ** What holds of C2 when the burst is over before [loop] reads the count *)

Lemma to_int_succ : forall z, to_int (to_int z + 1) = to_int (z + 1).
Proof.
  intros z. unfold to_int.
  replace ((z + 2 ^ 15) mod 2 ^ 16 - 2 ^ 15 + 1 + 2 ^ 15)
    with ((z + 2 ^ 15) mod 2 ^ 16 + 1) by lia.
  rewrite Zplus_mod_idemp_l. f_equal. f_equal. lia.
Qed.

Lemma to_int_small : forall z, - 2 ^ 15 <= z < 2 ^ 15 -> to_int z = z.
Proof.
  intros z H. unfold to_int. rewrite Z.mod_small; lia.
Qed.

Lemma falls_snoc : forall tr ev,
  falls (tr ++ [ev]) = (falls tr + if is_falling_edge ev then 1 else 0)%nat.
Proof.
  intros tr ev. unfold falls. rewrite filter_app, length_app. cbn [filter].
  destruct (is_falling_edge ev); reflexivity.
Qed.

(** With the falling interrupt attached and the count at 0, a burst of edges
    and ticks leaves in [fall_count] the number of falling edges (as a 16-bit
    [int]); an uninterrupted pass that finds the press settled reports that
    number. *)
Lemma burst_is_counted : forall tr p m,
  forallb is_Edge_or_Tick tr = true ->
  isr m = Some FALLING -> fall_count m = 0 ->
  isr (snd (run tr (p, m))) = Some FALLING
  /\ fall_count (snd (run tr (p, m))) = to_int (Z.of_nat (falls tr)).
Proof.
  induction tr as [|ev tr IH] using rev_ind; intros p m Hb Hi H0.
  - split; [exact Hi | exact H0].
  - rewrite forallb_app in Hb. apply andb_true_iff in Hb. destruct Hb as [Hb Hev].
    destruct (IH p m Hb Hi H0) as [IH1 IH2].
    rewrite run_app, falls_snoc. cbn [run fold_left].
    destruct (run tr (p, m)) as [p' m']. cbn [snd] in IH1, IH2.
    destruct m' as [ck s2 i r g se lt fc rc pr ld fl lf ft st].
    cbn [isr fall_count] in IH1, IH2. subst i.
    destruct ev as [|[|]| |]; try discriminate Hev;
      cbn [step fst snd tick pin_edge falling rising set_clock set_S2 isr
           set_fall_count set_rise_count set_last_time fall_count rise_count millis
           is_falling_edge];
      (split; [reflexivity|]); rewrite ?Nat.add_0_r; try exact IH2.
    rewrite IH2, to_int_succ. f_equal. lia.
Qed.

Lemma burst_is_reported : forall tr p m,
  forallb is_Edge_or_Tick tr = true ->
  isr m = Some FALLING -> fall_count m = 0 ->
  (falls tr < 2 ^ 15)%nat ->
  press_settled (snd (run tr (p, m))) = true ->
  serial (press_block (snd (run tr (p, m)))) =
  serial (snd (run tr (p, m))) ++ [Print pressed_msg; PrintlnInt (Z.of_nat (falls tr))].
Proof.
  intros tr p m Hb Hi H0 Hn Hs.
  destruct (press_block_fires _ Hs) as (-> & _).
  destruct (burst_is_counted tr p m Hb Hi H0) as [_ ->].
  rewrite to_int_small; [reflexivity|].
  assert (Z.of_nat (falls tr) < Z.of_nat (2 ^ 15)) by lia.
  rewrite Nat2Z.inj_pow in H. change (Z.of_nat 2) with 2 in H.
  change (Z.of_nat 15) with 15 in H. lia.
Qed.

(** ** C2 *)

(** C2, at the failing interleaving.  The press at t = 0 is reported at
    t = 51 with count 1; the contact bounces between line 71 and line 72, the
    falling routine runs a second time, and line 72 then resets the count: two
    falling interrupts were taken, one was reported, and the count is back at
    0 with the rising interrupt attached, so the second is never reported. *)
Theorem late_bounce_loses_an_edge :
  let c := run late_bounce_trace power_up in
  interrupts FALLING late_bounce_trace power_up = 2%nat
  /\ serial (snd c) = [Print pressed_msg; PrintlnInt 1; Println "State: ON"]
  /\ fall_count (snd c) = 0
  /\ isr (snd c) = Some RISING
  /\ fst c = L69a.
Proof. vm_compute. repeat split. Qed.

(** ** C3 *)

(** C3 as stated fails.  After [stale_count_trace] the sketch is at the top
    of [loop] with [fall_count] at 1, the rising interrupt attached and the
    press settle condition true; a rising edge then runs [rising], which
    overwrites [last_time], and the press settle condition is false. *)
Lemma rising_interrupt_moves_falling_window :
  let c := run stale_count_trace power_up in
  fst c = L69a
  /\ fall_count (snd c) = 1
  /\ isr (snd c) = Some RISING
  /\ press_settled (snd c) = true
  /\ pin_edge RISING (snd c) = rising (set_S2 true (snd c))
  /\ press_settled (pin_edge RISING (snd c)) = false.
Proof. vm_compute. repeat split. Qed.

Lemma to_ulong_self : forall z, to_ulong (z - z) = 0.
Proof. intros z. rewrite Z.sub_diag. reflexivity. Qed.

(** C3, amended.  The two directions share the one [last_time]: [falling]
    and [rising] both set it to the current time, and both settle conditions
    are computed from it; so right after an interrupt of either direction
    neither the press nor the release settle condition holds. *)
Theorem shared_last_time : forall m,
  last_time (falling m) = millis m
  /\ last_time (rising m) = millis m
  /\ press_settled (falling m) = false
  /\ press_settled (rising m) = false
  /\ release_settled (falling m) = false
  /\ release_settled (rising m) = false.
Proof.
  intros [ck s2 i r g se lt fc rc pr ld fl lf ft st].
  unfold falling, rising. msimpl. rewrite to_ulong_self.
  change (DEBOUNCE_TIME <? 0) with false. rewrite !andb_false_r.
  repeat split.
Qed.

(** ** The indicator state machine *)

Lemma state_transition : forall m, state (transition m) = successor (state m).
Proof.
  intros m. unfold transition, successor.
  destruct m as [ck s2 i r g se lt fc rc pr ld fl lf ft st]. msimpl.
  repeat (case_cond; msimpl); reflexivity.
Qed.

Lemma state_press_event : forall m, state (press_event m) = successor (state m).
Proof.
  intros m. unfold press_event, service.
  destruct m as [ck s2 i r g se lt fc rc pr ld fl lf ft st]. msimpl.
  apply state_transition.
Qed.

Lemma state_flash_block : forall m, state (flash_block m) = state m.
Proof. by_cases. Qed.

Lemma state_tick : forall m, state (tick m) = state m.
Proof. by_cases. Qed.

Lemma state_sm_step : forall m i,
  state (sm_step m i) = if is_SmPressed i then successor (state m) else state m.
Proof.
  intros m [| |]; cbn [sm_step is_SmPressed];
    auto using state_press_event, state_flash_block, state_tick.
Qed.

Lemma sm_run_snoc : forall l i m, sm_run (l ++ [i]) m = sm_step (sm_run l m) i.
Proof. intros. unfold sm_run. rewrite fold_left_app. reflexivity. Qed.

Lemma presses_snoc : forall l i,
  presses (l ++ [i]) = ((if is_SmPressed i then 1 else 0) + presses l)%nat.
Proof.
  intros l i. unfold presses. rewrite filter_app, length_app. cbn [filter].
  destruct (is_SmPressed i); cbn [List.length]; lia.
Qed.

Lemma state_sm_run : forall l m,
  state (sm_run l m) = Nat.iter (presses l) successor (state m).
Proof.
  induction l as [|i l IH] using rev_ind; intros m.
  - reflexivity.
  - rewrite sm_run_snoc, presses_snoc, state_sm_step, IH.
    destruct (is_SmPressed i); reflexivity.
Qed.

Lemma successor_indicator_state : forall s,
  indicator_state s -> indicator_state (successor s).
Proof.
  intros s [-> | [-> | [-> | ->]]]; vm_compute; tauto.
Qed.

Lemma successor_four : forall s,
  indicator_state s -> Nat.iter 4 successor s = s.
Proof. intros s [-> | [-> | [-> | ->]]]; reflexivity. Qed.

Lemma iter_successor_indicator_state : forall n s,
  indicator_state s -> indicator_state (Nat.iter n successor s).
Proof.
  induction n as [|n IH]; intros s H; simpl;
    auto using successor_indicator_state.
Qed.

Lemma iter_successor_laps : forall q r s,
  indicator_state s ->
  Nat.iter (r + 4 * q) successor s = Nat.iter r successor s.
Proof.
  intros q r s Hs. rewrite Nat.iter_add. f_equal.
  induction q as [|q IH].
  - reflexivity.
  - replace (4 * S q)%nat with (4 + 4 * q)%nat by lia.
    rewrite Nat.iter_add, IH. apply successor_four. exact Hs.
Qed.

Lemma iter_successor_mod4 : forall n s,
  indicator_state s ->
  Nat.iter n successor s = Nat.iter (n mod 4) successor s.
Proof.
  intros n s Hs.
  rewrite <- (iter_successor_laps (n / 4) (n mod 4) s Hs).
  f_equal. pose proof (Nat.div_mod_eq n 4). lia.
Qed.

Lemma press_event_off_is_dark : forall m, off_is_dark (press_event m).
Proof.
  unfold off_is_dark. intros m.
  destruct m as [ck s2 i r g se lt fc rc pr ld fl lf ft st].
  unfold press_event, service, transition. msimpl.
  repeat (case_cond; msimpl); intros H; try discriminate H; auto.
  apply Z.eqb_neq in Heqb. contradiction.
Qed.

Lemma flash_block_off_is_dark : forall m, off_is_dark m -> off_is_dark (flash_block m).
Proof.
  unfold off_is_dark. intros m H. rewrite state_flash_block. intros Hs.
  destruct (H Hs) as [Hf Hg]. unfold flash_block, flash_due. rewrite Hf. auto.
Qed.

Lemma tick_off_is_dark : forall m, off_is_dark m -> off_is_dark (tick m).
Proof.
  unfold off_is_dark. intros m H.
  destruct m as [ck s2 i r g se lt fc rc pr ld fl lf ft st]. exact H.
Qed.

Lemma sm_run_off_is_dark : forall l m,
  (0 < presses l)%nat -> off_is_dark (sm_run l m).
Proof.
  induction l as [|i l IH] using rev_ind; intros m Hp.
  - cbn in Hp. lia.
  - rewrite sm_run_snoc. rewrite presses_snoc in Hp.
    destruct i; cbn [sm_step is_SmPressed] in *.
    + apply press_event_off_is_dark.
    + apply flash_block_off_is_dark, IH. lia.
    + apply tick_off_is_dark, IH. lia.
Qed.

(** ** C4 *)

(** C4.  From any of the four indicator states, after any inputs of which N
    are Pressed events (passes through the flash service and ticks may come in
    between), the state is the (N mod 4)-th successor of the starting state in
    the cycle Off, On, SlowFlash, FastFlash, Off; and four Pressed events
    starting from Off end in Off with the flash disabled and the green output
    low. *)
Theorem pressed_events_walk_the_cycle : forall l m,
  indicator_state (state m) ->
  state (sm_run l m) = Nat.iter (presses l mod 4) successor (state m)
  /\ (state m = OFF -> presses l = 4%nat ->
      state (sm_run l m) = OFF
      /\ flash (sm_run l m) = false
      /\ GREEN_LED (sm_run l m) = false).
Proof.
  intros l m Hs.
  assert (E : state (sm_run l m) = Nat.iter (presses l mod 4) successor (state m)).
  { rewrite state_sm_run. apply iter_successor_mod4, Hs. }
  split; [exact E|].
  intros H0 H4.
  assert (Hoff : state (sm_run l m) = OFF).
  { rewrite E, H4, H0. reflexivity. }
  split; [exact Hoff|].
  apply sm_run_off_is_dark; [lia | exact Hoff].
Qed.

Lemma pressed_events_walk_the_cycle_witness :
  let l := [SmPressed; SmFlash; SmPressed; SmPressed; SmTick; SmFlash; SmPressed] in
  state (sm_run l reset) = Nat.iter (presses l mod 4) successor (state reset)
  /\ state (sm_run l reset) = OFF
  /\ flash (sm_run l reset) = false
  /\ GREEN_LED (sm_run l reset) = false.
Proof.
  destruct (pressed_events_walk_the_cycle
              [SmPressed; SmFlash; SmPressed; SmPressed; SmTick; SmFlash; SmPressed]
              reset (or_introl eq_refl)) as [H1 H2].
  split; [exact H1 | apply H2; reflexivity].
Defined.

(** ** Without a new edge there is no second report *)

Lemma exec_without_count : forall p m,
  fall_count m = 0 -> about_to_report p = false ->
  fall_count (snd (exec (p, m))) = 0
  /\ about_to_report (fst (exec (p, m))) = false
  /\ pressed_events (snd (exec (p, m))) = pressed_events m.
Proof.
  intros p m H0 Hp.
  destruct p; try discriminate Hp; cbn [exec];
    try (unfold fall_seen; rewrite H0; cbn [Z.eqb negb]);
    try match goal with |- context [if ?b then _ else _] => destruct b end;
    cbn [fst snd about_to_report];
    (split; [|split; [reflexivity|]]);
    try assumption; try reflexivity;
    revert H0; clear; by_cases.
Qed.

Lemma loop_without_count : forall m,
  fall_count m = 0 ->
  fall_count (loop m) = 0 /\ pressed_events (loop m) = pressed_events m.
Proof.
  intros m H0. unfold loop.
  rewrite rest_keeps_fall_count, rest_keeps_pressed_events.
  rewrite press_block_idle; [auto|].
  unfold press_settled, fall_seen. rewrite H0. reflexivity.
Qed.

Lemma step_without_count : forall c ev,
  fall_count (snd c) = 0 -> about_to_report (fst c) = false ->
  ev <> Edge FALLING ->
  fall_count (snd (step c ev)) = 0
  /\ about_to_report (fst (step c ev)) = false
  /\ pressed_events (snd (step c ev)) = pressed_events (snd c).
Proof.
  intros [p m] ev H0 Hp Hev. cbn [fst snd] in *.
  destruct ev as [|e| |]; cbn [step fst snd].
  - repeat split; auto; revert H0; clear; by_cases.
  - destruct e; [congruence|].
    repeat split; auto; revert H0; clear;
      destruct m as [ck s2 [[|]|] r g se lt fc rc pr ld fl lf ft st]; auto.
  - apply exec_without_count; assumption.
  - destruct p; cbn [fst snd]; auto.
    destruct (loop_without_count m H0). auto.
Qed.

(** Once the count is 0 and the program is not between the test and the
    report, no press is reported until a falling edge arrives: this holds with
    interrupts taken anywhere. *)
Lemma second_press_needs_new_edge : forall tr c,
  fall_count (snd c) = 0 -> about_to_report (fst c) = false ->
  ~ In (Edge FALLING) tr ->
  fall_count (snd (run tr c)) = 0
  /\ pressed_events (snd (run tr c)) = pressed_events (snd c).
Proof.
  induction tr as [|ev tr IH]; intros c H0 Hp Hin.
  - auto.
  - cbn [run fold_left].
    destruct (step_without_count c ev H0 Hp) as (H1 & H2 & H3).
    { intros ->. apply Hin. left. reflexivity. }
    destruct (IH (step c ev) H1 H2) as (H4 & H5).
    { intros H. apply Hin. right. exact H. }
    split; [exact H4 | rewrite <- H3; exact H5].
Qed.

(** ** Uninterrupted passes: the settle time counts from the last edge *)

Lemma ticks_app : forall tr1 tr2, ticks (tr1 ++ tr2) = (ticks tr1 + ticks tr2)%nat.
Proof.
  induction tr1 as [|ev tr1 IH]; intros tr2; [reflexivity|].
  destruct ev; cbn [app ticks]; rewrite IH; reflexivity.
Qed.

Lemma since_last_new : forall e tr, since_last e (tr ++ [Edge e]) 0.
Proof.
  intros e tr. exists tr, []. repeat split. intros [].
Qed.

Lemma since_last_tick : forall e tr n,
  since_last e tr n -> since_last e (tr ++ [Tick]) (S n).
Proof.
  intros e tr n (tr1 & tr2 & -> & Hin & Hn).
  exists tr1, (tr2 ++ [Tick]). rewrite <- app_assoc. split; [reflexivity|]. split.
  - rewrite in_app_iff. intros [H | [H | []]]; [auto | discriminate H].
  - rewrite ticks_app, Hn. cbn. lia.
Qed.

Lemma since_last_other : forall e tr n ev,
  since_last e tr n -> ev <> Edge e -> ev <> Tick ->
  since_last e (tr ++ [ev]) n.
Proof.
  intros e tr n ev (tr1 & tr2 & -> & Hin & Hn) He Ht.
  exists tr1, (tr2 ++ [ev]). rewrite <- app_assoc. split; [reflexivity|]. split.
  - rewrite in_app_iff. intros [H | [H | []]]; [auto | congruence].
  - rewrite ticks_app, Hn. destruct ev; cbn; try lia. congruence.
Qed.

Lemma to_ulong_tick : forall ck lt n,
  to_ulong (ck - lt) = to_ulong (Z.of_nat n) ->
  to_ulong (to_ulong (ck + 1) - lt) = to_ulong (Z.of_nat (S n)).
Proof.
  unfold to_ulong. intros ck lt n H.
  rewrite Zminus_mod_idemp_l.
  replace (ck + 1 - lt) with ((ck - lt) + 1) by lia.
  rewrite <- Zplus_mod_idemp_l, H, Zplus_mod_idemp_l.
  f_equal. lia.
Qed.

Lemma window_tick : forall e tr m,
  window_of e tr m -> window_of e (tr ++ [Tick]) (tick m).
Proof.
  intros e tr [ck s2 i r g se lt fc rc pr ld fl lf ft st] (Hi & n & Hs & Hn).
  unfold window_of, tick in *. msimpl. split; [exact Hi|].
  exists (S n). split; [apply since_last_tick, Hs | apply to_ulong_tick, Hn].
Qed.

Lemma window_edge_same : forall e tr m,
  isr m = Some e -> window_of e (tr ++ [Edge e]) (pin_edge e m).
Proof.
  intros e tr [ck s2 i r g se lt fc rc pr ld fl lf ft st] Hi.
  cbn [isr] in Hi. subst i. unfold window_of.
  destruct e; (split; [reflexivity|]); exists O;
    (split; [apply since_last_new|]); cbn [pin_edge set_S2 isr falling rising];
    msimpl; apply to_ulong_self.
Qed.

Lemma window_edge_other : forall e e' tr m,
  e <> e' -> window_of e tr m -> window_of e (tr ++ [Edge e']) (pin_edge e' m).
Proof.
  intros e e' tr [ck s2 i r g se lt fc rc pr ld fl lf ft st] Hne (Hi & n & Hs & Hn).
  cbn [isr] in Hi. subst i. unfold window_of.
  destruct e, e'; try congruence; (split; [reflexivity|]); exists n;
    (split; [apply since_last_other; [exact Hs | congruence | discriminate] | exact Hn]).
Qed.

Lemma loop_keeps_times : forall m,
  millis (loop m) = millis m /\ last_time (loop m) = last_time m.
Proof.
  intros m. unfold loop.
  destruct (flash_block_frame (service (release_block (press_block m)))) as (-> & -> & _).
  destruct (service_frame (release_block (press_block m))) as (-> & -> & _).
  destruct (release_block_frame (press_block m)) as (-> & -> & _).
  destruct (press_block_frame m) as (-> & -> & _). auto.
Qed.

Lemma release_block_isr : forall m,
  isr (release_block m) = isr m \/ isr (release_block m) = Some FALLING.
Proof.
  intros m. unfold release_block. destruct (release_settled m); [|auto].
  destruct m as [ck s2 i r g se lt fc rc pr ld fl lf ft st]. msimpl.
  destruct s2; auto.
Qed.

Lemma rest_isr : forall m,
  isr (flash_block (service m)) = isr m
  /\ rise_count (flash_block (service m)) = rise_count m.
Proof.
  intros m.
  destruct (flash_block_frame (service m)) as (_ & _ & _ & -> & -> & _).
  destruct (service_frame m) as (_ & _ & _ & -> & -> & _). auto.
Qed.

Lemma loop_fall_window : forall m,
  fall_count (loop m) <> 0 ->
  fall_count m <> 0 /\ (isr m = Some FALLING -> isr (loop m) = Some FALLING).
Proof.
  intros m. unfold loop. rewrite rest_keeps_fall_count.
  destruct (rest_isr (release_block (press_block m))) as [-> _].
  destruct (press_settled m) eqn:E.
  - destruct (press_block_fires m E) as (_ & _ & ->). congruence.
  - rewrite (press_block_idle m E). intros H. split; [exact H|].
    intros Hi. destruct (release_block_isr m) as [-> | ->]; auto.
Qed.

Lemma loop_rise_window : forall m,
  rise_count (loop m) <> 0 ->
  rise_count m <> 0
  /\ (fall_count m = 0 -> isr (loop m) = isr m).
Proof.
  intros m. unfold loop.
  destruct (rest_isr (release_block (press_block m))) as [-> ->].
  destruct (release_settled (press_block m)) eqn:E.
  - destruct (release_block_fires _ E) as (_ & _ & ->). congruence.
  - rewrite (release_block_idle _ E).
    destruct (press_block_frame m) as (_ & _ & -> & _).
    intros H. split; [exact H|].
    intros H0. rewrite press_block_idle; [reflexivity|].
    unfold press_settled, fall_seen. rewrite H0. reflexivity.
Qed.

Lemma window_poll : forall e tr m,
  window_of e tr m -> isr (loop m) = Some e ->
  window_of e (tr ++ [Poll]) (loop m).
Proof.
  intros e tr m (_ & n & Hs & Hn) Hi. split; [exact Hi|].
  exists n. split.
  - apply since_last_other; [exact Hs | discriminate | discriminate].
  - destruct (loop_keeps_times m) as [-> ->]. exact Hn.
Qed.

Lemma tracked_step : forall tr c ev,
  tracked tr c -> is_Run ev = false -> tracked (tr ++ [ev]) (step c ev).
Proof.
  intros tr [p m] ev (Hp & Hf & Hr) Hev. cbn [fst snd] in *. subst p.
  destruct ev as [|e| |]; try discriminate Hev; cbn [step fst snd];
    (split; [reflexivity|]); cbn [snd].
  - (* Tick *)
    assert (E : fall_count (tick m) = fall_count m /\ rise_count (tick m) = rise_count m)
      by (clear; split; by_cases).
    destruct E as [-> ->].
    split; intros H; apply window_tick; auto.
  - (* Edge *)
    destruct (isr m) as [a|] eqn:Ei.
    + destruct a, e.
      * (* falling attached, falling edge *)
        split; intros H.
        -- apply window_edge_same, Ei.
        -- assert (E : rise_count (pin_edge FALLING m) = rise_count m).
           { clear - Ei. destruct m as [ck s2 i r g se lt fc rc pr ld fl lf ft st].
             cbn [isr] in Ei. subst i. reflexivity. }
           rewrite E in H. destruct (Hr H) as [Hi _]. congruence.
      * (* falling attached, rising edge *)
        assert (E : fall_count (pin_edge RISING m) = fall_count m
                    /\ rise_count (pin_edge RISING m) = rise_count m).
        { clear - Ei. destruct m as [ck s2 i r g se lt fc rc pr ld fl lf ft st].
          cbn [isr] in Ei. subst i. split; reflexivity. }
        destruct E as [-> ->]. split; intros H.
        -- apply window_edge_other; [discriminate | auto].
        -- destruct (Hr H) as [Hi _]. congruence.
      * (* rising attached, falling edge *)
        assert (E : fall_count (pin_edge FALLING m) = fall_count m
                    /\ rise_count (pin_edge FALLING m) = rise_count m).
        { clear - Ei. destruct m as [ck s2 i r g se lt fc rc pr ld fl lf ft st].
          cbn [isr] in Ei. subst i. split; reflexivity. }
        destruct E as [-> ->]. split; intros H.
        -- destruct (Hf H) as [Hi _]. congruence.
        -- apply window_edge_other; [discriminate | auto].
      * (* rising attached, rising edge *)
        split; intros H.
        -- assert (E : fall_count (pin_edge RISING m) = fall_count m).
           { clear - Ei. destruct m as [ck s2 i r g se lt fc rc pr ld fl lf ft st].
             cbn [isr] in Ei. subst i. reflexivity. }
           rewrite E in H. destruct (Hf H) as [Hi _]. congruence.
        -- apply window_edge_same, Ei.
    + (* nothing attached *)
      assert (E : fall_count (pin_edge e m) = fall_count m
                  /\ rise_count (pin_edge e m) = rise_count m).
      { clear - Ei. destruct m as [ck s2 i r g se lt fc rc pr ld fl lf ft st].
        cbn [isr] in Ei. subst i. destruct e; split; reflexivity. }
      destruct E as [-> ->]. split; intros H.
      * destruct (Hf H) as [Hi _]. congruence.
      * destruct (Hr H) as [Hi _]. congruence.
  - (* Poll *)
    split; intros H.
    + destruct (loop_fall_window m H) as [H1 H2].
      pose proof (Hf H1) as Hw. apply window_poll; [exact Hw|].
      apply H2, Hw.
    + destruct (loop_rise_window m H) as [H1 H2].
      pose proof (Hr H1) as Hw. apply window_poll; [exact Hw|].
      rewrite H2; [apply Hw|].
      destruct (Z.eq_dec (fall_count m) 0) as [E | E]; [exact E|].
      destruct (Hf E) as [Hi _]. destruct Hw as [Hi' _]. congruence.
Qed.

(** On such a trace the main program stays at the top of [loop] and the
    bookkeeping of [tracked] holds throughout. *)
Lemma tracked_run : forall tr c,
  fst c = L69a -> fall_count (snd c) = 0 -> rise_count (snd c) = 0 ->
  uninterrupted tr ->
  run tr c = (L69a, snd (run tr c)) /\ tracked tr (run tr c).
Proof.
  intros tr c Hp Hf Hr.
  induction tr as [|ev tr IH] using rev_ind; intros Hu.
  - cbn [run fold_left]. split.
    + destruct c; cbn [fst snd] in *; congruence.
    + split; [exact Hp|]. split; intros H; contradiction.
  - unfold uninterrupted in Hu. rewrite forallb_app in Hu.
    apply andb_true_iff in Hu. destruct Hu as [Hu Hev].
    cbn [forallb] in Hev. rewrite andb_true_r, negb_true_iff in Hev.
    destruct (IH Hu) as [_ IH'].
    rewrite run_app. cbn [run fold_left].
    pose proof (tracked_step tr _ ev IH' Hev) as Ht.
    split; [|exact Ht].
    destruct Ht as [Hp' _]. destruct (step (run tr c) ev); cbn [fst snd] in *; congruence.
Qed.

Lemma quiet_window : forall m n,
  quiet m = true ->
  to_ulong (millis m - last_time m) = to_ulong (Z.of_nat n) ->
  (50 < n)%nat.
Proof.
  unfold quiet, to_ulong, DEBOUNCE_TIME. intros m n Hq E.
  apply Z.ltb_lt in Hq. rewrite E in Hq.
  pose proof (Z.mod_le (Z.of_nat n) (2 ^ 32)). lia.
Qed.

(** On a trace whose passes through [loop] are uninterrupted, started at the
    top of [loop] with both counts at 0: when the press (release) settle
    condition holds, the last falling (rising) edge on the pin is more than 50
    ms old. *)
Lemma settle_time_respected : forall tr c,
  fst c = L69a -> fall_count (snd c) = 0 -> rise_count (snd c) = 0 ->
  uninterrupted tr ->
  (press_settled (snd (run tr c)) = true ->
     exists n, since_last FALLING tr n /\ (50 < n)%nat)
  /\ (release_settled (snd (run tr c)) = true ->
     exists n, since_last RISING tr n /\ (50 < n)%nat).
Proof.
  intros tr c Hp Hf Hr Hu.
  destruct (tracked_run tr c Hp Hf Hr Hu) as [_ (_ & Tf & Tr)].
  split; intros H.
  - unfold press_settled in H. apply andb_true_iff in H. destruct H as [H1 H2].
    unfold fall_seen in H1. rewrite negb_true_iff, Z.eqb_neq in H1.
    destruct (Tf H1) as (_ & n & Hs & Hn). exists n. split; [exact Hs|].
    apply (quiet_window _ n H2 Hn).
  - unfold release_settled in H. apply andb_true_iff in H. destruct H as [H1 H2].
    unfold rise_seen in H1. rewrite negb_true_iff, Z.eqb_neq in H1.
    destruct (Tr H1) as (_ & n & Hs & Hn). exists n. split; [exact Hs|].
    apply (quiet_window _ n H2 Hn).
Qed.

(** ** At most one report without a new edge *)

(** The release side: once [rise_count] is 0 and the program is not between
    the test of line 80 and the report of line 81, no release is reported until
    a rising edge arrives. *)

Lemma released_events_release_block : forall m,
  release_settled m = true ->
  released_events (release_block m) = S (released_events m).
Proof.
  intros m H. unfold released_events.
  destruct (release_block_fires m H) as [-> _].
  rewrite filter_app, length_app. cbn. lia.
Qed.

Lemma released_events_flash_block : forall m,
  released_events (flash_block m) = released_events m.
Proof.
  intros m. unfold released_events.
  destruct (flash_block_frame m) as (_ & _ & _ & _ & _ & _ & _ & _ & ->).
  reflexivity.
Qed.

Lemma rest_keeps_released_events : forall m,
  released_events (flash_block (service m)) = released_events m.
Proof.
  intros m. rewrite released_events_flash_block. apply service_frame.
Qed.

Lemma release_report_only_on_line_81 : forall p m,
  released_events (snd (exec (p, m))) =
  match p with L81 => S (released_events m) | _ => released_events m end.
Proof.
  intros p m. destruct p; case_exec; try reflexivity;
    try (apply service_frame); clear; by_cases; lia.
Qed.

Lemma environment_keeps_release_reports : forall m,
  released_events (tick m) = released_events m
  /\ forall e, released_events (pin_edge e m) = released_events m.
Proof.
  intros [ck s2 i r g se lt fc rc pr ld fl lf ft st]. split; [reflexivity|].
  intros e. destruct i as [[|]|], e; reflexivity.
Qed.

Lemma release_settle_facts : forall m,
  (released_events (loop m) = S (released_events m) /\ rise_count (loop m) = 0)
  \/ released_events (loop m) = released_events m.
Proof.
  intros m. unfold loop. rewrite rest_keeps_released_events.
  destruct (rest_isr (release_block (press_block m))) as [_ ->].
  destruct (press_block_frame m) as (_ & _ & _ & _ & _ & Ep).
  destruct (release_settled (press_block m)) eqn:E.
  - left. split.
    + rewrite (released_events_release_block _ E), Ep. reflexivity.
    + apply release_block_fires, E.
  - right. rewrite (release_block_idle _ E). exact Ep.
Qed.

Lemma loop_without_rise_count : forall m,
  rise_count m = 0 ->
  rise_count (loop m) = 0 /\ released_events (loop m) = released_events m.
Proof.
  intros m H0.
  assert (E : release_settled (press_block m) = false).
  { unfold release_settled, rise_seen.
    destruct (press_block_frame m) as (_ & _ & -> & _). rewrite H0. reflexivity. }
  unfold loop. rewrite rest_keeps_released_events.
  destruct (rest_isr (release_block (press_block m))) as [_ ->].
  rewrite (release_block_idle _ E).
  destruct (press_block_frame m) as (_ & _ & -> & _ & _ & ->). auto.
Qed.

Lemma exec_without_rise_count : forall p m,
  rise_count m = 0 -> about_to_report_release p = false ->
  rise_count (snd (exec (p, m))) = 0
  /\ about_to_report_release (fst (exec (p, m))) = false
  /\ released_events (snd (exec (p, m))) = released_events m.
Proof.
  intros p m H0 Hp.
  rewrite release_report_only_on_line_81.
  destruct p; try discriminate Hp; cbn [exec];
    try (unfold rise_seen; rewrite H0; cbn [Z.eqb negb]);
    try match goal with |- context [if ?b then _ else _] => destruct b end;
    cbn [fst snd about_to_report_release];
    (split; [|split; reflexivity]);
    try assumption;
    try (destruct (service_frame m) as (_ & _ & _ & -> & _); assumption);
    revert H0; clear; by_cases.
Qed.

Lemma step_without_rise_count : forall c ev,
  rise_count (snd c) = 0 -> about_to_report_release (fst c) = false ->
  ev <> Edge RISING ->
  rise_count (snd (step c ev)) = 0
  /\ about_to_report_release (fst (step c ev)) = false
  /\ released_events (snd (step c ev)) = released_events (snd c).
Proof.
  intros [p m] ev H0 Hp Hev. cbn [fst snd] in *.
  destruct ev as [|e| |]; cbn [step fst snd].
  - repeat split; auto; revert H0; clear; by_cases.
  - destruct e; [|congruence].
    repeat split; auto; revert H0; clear;
      destruct m as [ck s2 [[|]|] r g se lt fc rc pr ld fl lf ft st]; auto.
  - apply exec_without_rise_count; assumption.
  - destruct p; cbn [fst snd]; auto.
    destruct (loop_without_rise_count m H0). auto.
Qed.

Lemma second_release_needs_new_edge : forall tr c,
  rise_count (snd c) = 0 -> about_to_report_release (fst c) = false ->
  ~ In (Edge RISING) tr ->
  rise_count (snd (run tr c)) = 0
  /\ released_events (snd (run tr c)) = released_events (snd c).
Proof.
  induction tr as [|ev tr IH]; intros c H0 Hp Hin.
  - auto.
  - cbn [run fold_left].
    destruct (step_without_rise_count c ev H0 Hp) as (H1 & H2 & H3).
    { intros ->. apply Hin. left. reflexivity. }
    destruct (IH (step c ev) H1 H2) as (H4 & H5).
    { intros H. apply Hin. right. exact H. }
    split; [exact H4 | rewrite <- H3; exact H5].
Qed.

Lemma step_release_report : forall c ev,
  released_events (snd (step c ev)) = released_events (snd c)
  \/ (released_events (snd (step c ev)) = S (released_events (snd c))
      /\ ((ev = Run /\ fst c = L81 /\ fst (step c ev) = L82)
          \/ (ev = Poll /\ rise_count (snd (step c ev)) = 0
              /\ fst (step c ev) = L69a))).
Proof.
  intros [p m] ev. destruct ev as [|e| |]; cbn [step fst snd].
  - left. apply environment_keeps_release_reports.
  - left. apply environment_keeps_release_reports.
  - rewrite release_report_only_on_line_81. destruct p; auto.
    right. split; [reflexivity|]. left. auto.
  - destruct p; cbn [fst snd]; auto.
    destruct (release_settle_facts m) as [H | H].
    + right. split; [apply H|]. right. split; [reflexivity|]. split; [apply H | reflexivity].
    + left. apply H.
Qed.

Lemma no_release_report_before_reset : forall tr p m,
  p = L82 \/ p = L83 ->
  ~ In (Edge RISING) tr ->
  released_events (snd (run tr (p, m))) = released_events m.
Proof.
  induction tr as [|ev tr IH]; intros p m Hp Hin; [reflexivity|].
  cbn [run fold_left].
  assert (Hin' : ~ In (Edge RISING) tr) by (intros H; apply Hin; right; exact H).
  destruct ev as [|e| |]; cbn [step fst snd].
  - rewrite (IH p _ Hp Hin'). apply environment_keeps_release_reports.
  - rewrite (IH p _ Hp Hin'). apply environment_keeps_release_reports.
  - destruct Hp as [-> | ->]; cbn [exec].
    + rewrite (IH L83 _ (or_intror eq_refl) Hin'). clear. by_cases.
    + destruct (second_release_needs_new_edge tr (L84, set_rise_count 0 m)) as [_ E];
        auto.
      * clear. by_cases.
      * unfold run in E. rewrite E. clear. by_cases.
  - destruct Hp as [-> | ->]; cbn [fst snd]; apply (IH _ m); auto.
Qed.

(** From any configuration, along any trace without a rising edge, at most
    one release is reported. *)
Lemma at_most_one_release_report : forall tr c,
  ~ In (Edge RISING) tr ->
  (released_events (snd (run tr c)) <= S (released_events (snd c)))%nat.
Proof.
  induction tr as [|ev tr IH]; intros c Hin; [cbn; lia|].
  cbn [run fold_left].
  assert (Hin' : ~ In (Edge RISING) tr) by (intros H; apply Hin; right; exact H).
  destruct (step_release_report c ev) as [E | [E [(_ & _ & Hp) | (_ & H0 & Hp)]]].
  - rewrite <- E. apply IH, Hin'.
  - destruct (step c ev) as [p' m']. cbn [fst snd] in *. subst p'.
    fold (run tr (L82, m')).
    rewrite (no_release_report_before_reset tr L82 m' (or_introl eq_refl) Hin'). lia.
  - destruct (second_release_needs_new_edge tr (step c ev)) as [_ E']; auto.
    + rewrite Hp. reflexivity.
    + unfold run in E'. rewrite E'. lia.
Qed.

(** The press side: what one step can add to the reports, and what follows
    the report of line 70. *)

Lemma press_settle_facts : forall m,
  (pressed_events (loop m) = S (pressed_events m) /\ fall_count (loop m) = 0)
  \/ pressed_events (loop m) = pressed_events m.
Proof.
  intros m. unfold loop. rewrite rest_keeps_fall_count, rest_keeps_pressed_events.
  destruct (press_settled m) eqn:E.
  - left. split; [apply pressed_events_press_block, E | apply press_block_fires, E].
  - right. rewrite (press_block_idle m E). reflexivity.
Qed.

Lemma step_report : forall c ev,
  pressed_events (snd (step c ev)) = pressed_events (snd c)
  \/ (pressed_events (snd (step c ev)) = S (pressed_events (snd c))
      /\ ((ev = Run /\ fst c = L70 /\ fst (step c ev) = L71)
          \/ (ev = Poll /\ fall_count (snd (step c ev)) = 0
              /\ fst (step c ev) = L69a))).
Proof.
  intros [p m] ev. destruct ev as [|e| |]; cbn [step fst snd].
  - left. apply environment_keeps_reports.
  - left. apply environment_keeps_reports.
  - rewrite report_only_on_line_70. destruct p; auto.
    right. split; [reflexivity|]. left. auto.
  - destruct p; cbn [fst snd]; auto.
    destruct (press_settle_facts m) as [H | H].
    + right. split; [apply H|]. right. split; [reflexivity|]. split; [apply H | reflexivity].
    + left. apply H.
Qed.

Lemma no_report_before_reset : forall tr p m,
  p = L71 \/ p = L72 ->
  ~ In (Edge FALLING) tr ->
  pressed_events (snd (run tr (p, m))) = pressed_events m.
Proof.
  induction tr as [|ev tr IH]; intros p m Hp Hin; [reflexivity|].
  cbn [run fold_left].
  assert (Hin' : ~ In (Edge FALLING) tr) by (intros H; apply Hin; right; exact H).
  destruct ev as [|e| |]; cbn [step fst snd].
  - rewrite (IH p _ Hp Hin'). apply environment_keeps_reports.
  - rewrite (IH p _ Hp Hin'). apply environment_keeps_reports.
  - destruct Hp as [-> | ->]; cbn [exec].
    + rewrite (IH L72 _ (or_intror eq_refl) Hin'). clear. by_cases.
    + destruct (second_press_needs_new_edge tr (L73, set_fall_count 0 m)) as [_ E];
        auto.
      * clear. by_cases.
      * unfold run in E. rewrite E. clear. by_cases.
  - destruct Hp as [-> | ->]; cbn [fst snd]; apply (IH _ m); auto.
Qed.

(** From any configuration, along any trace without a falling edge, at most
    one press is reported. *)
Lemma at_most_one_press_report : forall tr c,
  ~ In (Edge FALLING) tr ->
  (pressed_events (snd (run tr c)) <= S (pressed_events (snd c)))%nat.
Proof.
  induction tr as [|ev tr IH]; intros c Hin; [cbn; lia|].
  cbn [run fold_left].
  assert (Hin' : ~ In (Edge FALLING) tr) by (intros H; apply Hin; right; exact H).
  destruct (step_report c ev) as [E | [E [(_ & _ & Hp) | (_ & H0 & Hp)]]].
  - rewrite <- E. apply IH, Hin'.
  - destruct (step c ev) as [p' m']. cbn [fst snd] in *. subst p'.
    fold (run tr (L71, m')).
    rewrite (no_report_before_reset tr L71 m' (or_introl eq_refl) Hin'). lia.
  - destruct (second_press_needs_new_edge tr (step c ev)) as [_ E']; auto.
    + rewrite Hp. reflexivity.
    + unfold run in E'. rewrite E'. lia.
Qed.

(** ** C5 *)

(** C5.  A press can be reported before the settle time has elapsed.  The
    switch is pressed at t = 0 (one falling interrupt).  At t = 10 the main
    program passes the count test of line 69 and calls [millis()], which
    returns 10.  At t = 11 the contact bounces and [falling()] sets
    [last_time] to 11.  The comparison of line 69 then reads [last_time] and
    computes 10 - 11, which is 2^32 - 1 as an [unsigned long] and exceeds
    [DEBOUNCE_TIME].  Lines 70-73 report the press (count 2) and set
    [pressed] at t = 11: 11 ms after the first edge and 0 ms after the last
    one. *)
Theorem press_reported_before_settle :
  let c := run early_report_trace power_up in
  fst (run sampled_then_bounced power_up) = L69c 10
  /\ last_time (snd (run sampled_then_bounced power_up)) = 11
  /\ ticks early_report_trace = 11%nat
  /\ since_last FALLING early_report_trace 0
  /\ interrupts FALLING early_report_trace power_up = 2%nat
  /\ serial (snd c) = [Print pressed_msg; PrintlnInt 2]
  /\ pressed (snd c) = true
  /\ millis (snd c) = 11
  /\ last_time (snd c) = 11.
Proof.
  cbv zeta. split; [reflexivity|]. split; [reflexivity|]. split; [reflexivity|].
  split.
  - exists ([Run; Run; Edge FALLING] ++ repeat Tick 10 ++ [Run; Run; Tick; Edge RISING]),
      [Run; Run; Run; Run; Run].
    split; [reflexivity|]. split; [|reflexivity].
    cbn [In]. intuition discriminate.
  - vm_compute. repeat split.
Qed.

(** ** An interrupt between the test and the report (a remark on C5) *)

(** An interrupt taken between a passed test of line 69 and line 70 does not
    call the report off either: the press at t = 0 passes the test at t = 51,
    the contact bounces before line 70, and lines 70-73 report the press (with
    count 2) and set [pressed], 0 ms after the last falling edge. *)
Lemma bounce_after_test_is_still_reported :
  let c := run bounce_after_test_trace power_up in
  interrupts FALLING bounce_after_test_trace power_up = 2%nat
  /\ serial (snd c) = [Print pressed_msg; PrintlnInt 2]
  /\ pressed (snd c) = true
  /\ millis (snd c) = 51
  /\ last_time (snd c) = 51
  /\ quiet (snd c) = false.
Proof. vm_compute. repeat split. Qed.

(** ** The flash flag follows the state *)

Lemma flash_matches_state_reset : flash_matches_state reset.
Proof.
  unfold flash_matches_state. cbn. split; [discriminate|].
  intros [H | H]; discriminate H.
Qed.

Lemma flash_matches_state_transition : forall m,
  flash_matches_state m -> flash_matches_state (transition m).
Proof.
  unfold flash_matches_state, transition.
  intros [ck s2 i r g se lt fc rc pr ld fl lf ft st]. msimpl. intros H.
  destruct (st =? OFF) eqn:E0; msimpl.
  { apply Z.eqb_eq in E0. subst st. rewrite H.
    split; intros [E | E]; discriminate E. }
  destruct (st =? ON) eqn:E1; msimpl.
  { split; [left; reflexivity | reflexivity]. }
  destruct (st =? SLOW_FLASH) eqn:E2; msimpl.
  { split; [right; reflexivity | reflexivity]. }
  destruct (st =? FAST_FLASH) eqn:E3; msimpl.
  { split; [discriminate | intros [E | E]; discriminate E]. }
  exact H.
Qed.

Lemma flash_matches_state_service : forall m,
  flash_matches_state m -> flash_matches_state (service m).
Proof.
  intros m H. unfold service. destruct (pressed m) eqn:E; [|exact H].
  apply flash_matches_state_transition.
  destruct m as [ck s2 i r g se lt fc rc pr ld fl lf ft st]. exact H.
Qed.

Lemma flash_matches_state_press_event : forall m,
  flash_matches_state m -> flash_matches_state (press_event m).
Proof.
  intros m H. unfold press_event. apply flash_matches_state_service.
  destruct m as [ck s2 i r g se lt fc rc pr ld fl lf ft st]. exact H.
Qed.

(** A step that writes neither [flash] nor [state] keeps the invariant. *)
Lemma flash_matches_state_frame : forall m m',
  flash m' = flash m -> state m' = state m ->
  flash_matches_state m -> flash_matches_state m'.
Proof. unfold flash_matches_state. intros m m' -> ->. tauto. Qed.

Lemma flash_matches_state_flash_block : forall m,
  flash_matches_state m -> flash_matches_state (flash_block m).
Proof. intros m. apply flash_matches_state_frame; by_cases. Qed.

Lemma flash_matches_state_tick : forall m,
  flash_matches_state m -> flash_matches_state (tick m).
Proof. intros m. apply flash_matches_state_frame; by_cases. Qed.

Lemma flash_matches_state_pin_edge : forall e m,
  flash_matches_state m -> flash_matches_state (pin_edge e m).
Proof.
  intros e m. apply flash_matches_state_frame;
    destruct m as [ck s2 [[|]|] r g se lt fc rc pr ld fl lf ft st];
    destruct e; reflexivity.
Qed.

Lemma flash_matches_state_press_block : forall m,
  flash_matches_state m -> flash_matches_state (press_block m).
Proof. intros m. apply flash_matches_state_frame; by_cases. Qed.

Lemma flash_matches_state_release_block : forall m,
  flash_matches_state m -> flash_matches_state (release_block m).
Proof. intros m. apply flash_matches_state_frame; by_cases. Qed.

Lemma flash_matches_state_loop : forall m,
  flash_matches_state m -> flash_matches_state (loop m).
Proof.
  intros m H. unfold loop.
  auto using flash_matches_state_flash_block, flash_matches_state_service,
    flash_matches_state_release_block, flash_matches_state_press_block.
Qed.

Lemma flash_matches_state_exec : forall p m,
  flash_matches_state m -> flash_matches_state (snd (exec (p, m))).
Proof.
  intros p m H.
  destruct p; cbn [exec];
    try (apply flash_matches_state_service; exact H);
    try (match goal with |- context [if ?b then _ else _] => destruct b end;
         exact H);
    cbn [snd]; revert H; apply flash_matches_state_frame;
    destruct m as [ck s2 i r g se lt fc rc pr ld fl lf ft st]; reflexivity.
Qed.

Lemma flash_matches_state_step : forall c ev,
  flash_matches_state (snd c) -> flash_matches_state (snd (step c ev)).
Proof.
  intros [p m] ev H. destruct ev; cbn [step fst snd] in *.
  - apply flash_matches_state_tick, H.
  - apply flash_matches_state_pin_edge, H.
  - apply flash_matches_state_exec, H.
  - destruct p; cbn [snd]; auto using flash_matches_state_loop.
Qed.

Lemma flash_matches_state_run : forall tr c,
  flash_matches_state (snd c) -> flash_matches_state (snd (run tr c)).
Proof.
  induction tr as [|ev tr IH]; intros c H.
  - exact H.
  - cbn [run fold_left]. apply IH, flash_matches_state_step, H.
Qed.

Lemma flash_matches_state_sm_run : forall l m,
  flash_matches_state m -> flash_matches_state (sm_run l m).
Proof.
  induction l as [|i l IH]; intros m H.
  - exact H.
  - cbn [sm_run fold_left]. apply IH.
    destruct i; cbn [sm_step];
      auto using flash_matches_state_press_event, flash_matches_state_flash_block,
        flash_matches_state_tick.
Qed.

Lemma flash_block_disabled : forall m, flash m = false -> flash_block m = m.
Proof. intros m H. unfold flash_block, flash_due. rewrite H. reflexivity. Qed.

Lemma flash_off_in_steady_states : forall m,
  flash_matches_state m -> state m = OFF \/ state m = ON -> flash m = false.
Proof.
  unfold flash_matches_state. intros m H Hs.
  destruct (flash m); [|reflexivity].
  destruct (proj1 H eq_refl) as [E | E]; rewrite E in Hs;
    destruct Hs as [Hs | Hs]; discriminate Hs.
Qed.

Lemma leaving_fast_flash : forall m,
  state m = FAST_FLASH ->
  state (press_event m) = OFF /\ flash (press_event m) = false.
Proof.
  intros [ck s2 i r g se lt fc rc pr ld fl lf ft st]. cbn [state].
  intros ->. split; reflexivity.
Qed.

Lemma reached_flash_matches_state : forall m, reached m -> flash_matches_state m.
Proof.
  intros m [[l ->] | [tr ->]].
  - apply flash_matches_state_sm_run, flash_matches_state_reset.
  - apply flash_matches_state_run, flash_matches_state_reset.
Qed.

(** ** C6 *)

(** C6 as stated fails: with the flash flag set beforehand, the transition
    out of Off leaves it set (lines 95-99 do not write [flash]). *)
Lemma pressed_in_off_keeps_flash_flag :
  let m := set_flash true reset in
  state m = OFF /\ state (press_event m) = ON /\ flash (press_event m) = true.
Proof. repeat split. Qed.

(** C6, amended.  On a Pressed event in state Off the state becomes On and
    the green output is turned on; the flash flag is not written and keeps its
    value.  In every machine reached from the initial configuration that value
    is false, so the flash is disabled in On. *)
Theorem pressed_in_off_enters_on : forall m,
  state m = OFF ->
  state (press_event m) = ON
  /\ GREEN_LED (press_event m) = true
  /\ flash (press_event m) = flash m
  /\ (reached m -> flash (press_event m) = false).
Proof.
  intros m Hs.
  assert (H : state (press_event m) = ON /\ GREEN_LED (press_event m) = true
              /\ flash (press_event m) = flash m).
  { destruct m as [ck s2 i r g se lt fc rc pr ld fl lf ft st].
    cbn [state] in Hs. subst st. repeat split. }
  destruct H as (H1 & H2 & H3). repeat split; auto.
  intros Hr. rewrite H3.
  apply flash_off_in_steady_states; [apply reached_flash_matches_state, Hr | auto].
Qed.

Lemma pressed_in_off_enters_on_witness :
  state (press_event reset) = ON
  /\ GREEN_LED (press_event reset) = true
  /\ flash (press_event reset) = flash reset
  /\ flash (press_event reset) = false.
Proof.
  destruct (pressed_in_off_enters_on reset eq_refl) as (H1 & H2 & H3 & H4).
  split; [exact H1|]. split; [exact H2|]. split; [exact H3|].
  apply H4. left. exists []. reflexivity.
Defined.

(** ** C7 *)

(** C7.  In every machine reached from the initial configuration (by any
    sequence of Pressed events and flash passes, or by any trace of the whole
    sketch, interrupts included) the flash is enabled iff the state is
    SlowFlash or FastFlash; so in Off and On the flash service changes nothing
    (line 122 falls through), and the Pressed event that leaves FastFlash
    disables the flash before the flash service of the same pass, which
    changes nothing. *)
Theorem flash_only_in_flashing_states : forall m,
  reached m ->
  (flash m = true <-> (state m = SLOW_FLASH \/ state m = FAST_FLASH))
  /\ (state m = OFF \/ state m = ON ->
      flash_block m = m /\ exec (L122, m) = (L69a, m))
  /\ (state m = FAST_FLASH ->
      state (press_event m) = OFF
      /\ flash (press_event m) = false
      /\ flash_block (press_event m) = press_event m).
Proof.
  intros m Hr. pose proof (reached_flash_matches_state m Hr) as Hinv.
  split; [exact Hinv|]. split.
  - intros Hs. pose proof (flash_off_in_steady_states m Hinv Hs) as Hf.
    split; [apply flash_block_disabled, Hf|].
    cbn [exec]. unfold flash_due. rewrite Hf. reflexivity.
  - intros Hs. destruct (leaving_fast_flash m Hs) as [H1 H2].
    repeat split; auto using flash_block_disabled.
Qed.

Lemma flash_only_in_flashing_states_witness :
  let m := sm_run [SmPressed; SmPressed; SmPressed] reset in
  (flash m = true <-> (state m = SLOW_FLASH \/ state m = FAST_FLASH))
  /\ state (press_event m) = OFF
  /\ flash (press_event m) = false
  /\ flash_block (press_event m) = press_event m.
Proof.
  destruct (flash_only_in_flashing_states
              (sm_run [SmPressed; SmPressed; SmPressed] reset)) as (H1 & _ & H3).
  - left. exists [SmPressed; SmPressed; SmPressed]. reflexivity.
  - split; [exact H1 | apply H3; reflexivity].
Defined.

(** ** C8 *)

(** C8.  The flash service (lines 122-126) inverts [led], drives the green
    output with the new value and sets [last_flash] to the current time when
    [flash] is set and [millis() - last_flash] exceeds [flash_time]; otherwise
    it changes nothing. *)
Theorem flash_service_toggles : forall m,
  (flash m = true /\ to_ulong (flash_time m) < to_ulong (millis m - last_flash m) ->
     led (flash_block m) = negb (led m)
     /\ GREEN_LED (flash_block m) = negb (led m)
     /\ last_flash (flash_block m) = millis m)
  /\
  (~ (flash m = true /\ to_ulong (flash_time m) < to_ulong (millis m - last_flash m)) ->
     flash_block m = m).
Proof.
  intros m. unfold flash_block.
  assert (E : flash_due m = true <->
              flash m = true /\ to_ulong (flash_time m) < to_ulong (millis m - last_flash m)).
  { unfold flash_due. rewrite andb_true_iff, Z.ltb_lt. reflexivity. }
  split; intros H.
  - apply E in H. rewrite H.
    destruct m as [ck s2 i r g se lt fc rc pr ld fl lf ft st]. repeat split.
  - destruct (flash_due m); [|reflexivity].
    exfalso. apply H, E. reflexivity.
Qed.

Lemma flash_service_toggles_witness :
  (let m := set_clock 1001 (set_flash true reset) in
   led (flash_block m) = true
   /\ GREEN_LED (flash_block m) = true
   /\ last_flash (flash_block m) = 1001)
  /\
  (let m := set_clock 1000 (set_flash true reset) in flash_block m = m).
Proof.
  split.
  - apply (proj1 (flash_service_toggles (set_clock 1001 (set_flash true reset)))).
    split; reflexivity.
  - apply (proj2 (flash_service_toggles (set_clock 1000 (set_flash true reset)))).
    intros [_ H]. vm_compute in H. discriminate.
Defined.

(** ** The green pin and the [led] flag (a remark on C8) *)

(** The flash service drives the pin with the inverted flag, not with the
    inverted pin: entering SlowFlash from On, the pin is high while [led] is
    still false, so the first service sets [led] and leaves the pin high. *)
Lemma green_pin_may_keep_its_level :
  let m := set_clock 1001 (sm_run [SmPressed; SmPressed] reset) in
  flash_due m = true
  /\ GREEN_LED m = true
  /\ led (flash_block m) = negb (led m)
  /\ GREEN_LED (flash_block m) = true.
Proof. vm_compute. repeat split. Qed.

(** ** C9 *)

Lemma scenario_63 : run (scenario 63) booted = (L69a, after_press 63).
Proof. vm_compute. reflexivity. Qed.

Lemma loop_after_press : forall c, loop (tick (after_press c)) = after_press (to_ulong (c + 1)).
Proof. intros c. reflexivity. Qed.

Lemma scenario_silence : forall k,
  exists c, run (scenario (63 + k)) booted = (L69a, after_press c).
Proof.
  induction k as [|k [c IH]].
  - exists 63. exact scenario_63.
  - exists (to_ulong (c + 1)).
    replace (63 + S k)%nat with (S (63 + k)) by lia.
    cbn [scenario]. rewrite run_app, IH.
    change (during (S (63 + k))) with [Poll].
    cbn [run fold_left step fst snd]. rewrite loop_after_press. reflexivity.
Qed.

(** C9 as stated fails: with one pass through [loop] every millisecond, the
    pass at t = 62 ms reports nothing (62 - 12 = 50 is not greater than
    [DEBOUNCE_TIME]); the report comes from the pass at t = 63 ms. *)
Lemma scenario_counterexample :
  serial (snd (run (scenario 62) booted)) = []
  /\ pressed_events (snd (run (scenario 62) booted)) = 0%nat
  /\ pressed_events (snd (run (scenario 63) booted)) = 1%nat.
Proof. vm_compute. repeat split. Qed.

(** C9, amended.  For falling edges at t = 0, 5, 10, 12 ms followed by
    silence, with one pass through [loop] every millisecond, nothing is
    reported up to and including t = 62 ms; the pass at t = 63 ms (the first
    at which more than 50 ms have passed since t = 12 ms) reports one press
    with count 4, and no later pass reports anything more. *)
Theorem scenario_reports_once_at_63 : forall T,
  serial (snd (run (scenario T) booted)) =
  if (T <? 63)%nat then []
  else [Print pressed_msg; PrintlnInt 4; Println "State: ON"].
Proof.
  intros T. destruct (Nat.ltb_spec T 63) as [H | H].
  - do 63 (destruct T as [|T]; [vm_compute; reflexivity|]). lia.
  - replace T with (63 + (T - 63))%nat by lia.
    destruct (scenario_silence (T - 63)) as [c ->]. reflexivity.
Qed.

(** ** C10 *)

Lemma press_block_pin_high : forall m,
  press_settled m = true -> digitalRead_S2 m = true ->
  isr (press_block m) = isr m /\ RED_LED (press_block m) = RED_LED m.
Proof.
  intros m H Hp. unfold press_block. rewrite H.
  destruct m as [ck s2 i r g se lt fc rc pr ld fl lf ft st]. msimpl.
  subst s2. split; reflexivity.
Qed.

Lemma release_block_pin_low : forall m,
  release_settled m = true -> digitalRead_S2 m = false ->
  isr (release_block m) = isr m /\ RED_LED (release_block m) = RED_LED m.
Proof.
  intros m H Hp. unfold release_block. rewrite H.
  destruct m as [ck s2 i r g se lt fc rc pr ld fl lf ft st]. msimpl.
  subst s2. split; reflexivity.
Qed.

Lemma release_block_keeps_indicator : forall m,
  pressed (release_block m) = pressed m /\ state (release_block m) = state m.
Proof. split; by_cases. Qed.

Lemma pressed_flag_consumed : forall m,
  pressed m = true ->
  pressed (flash_block (service m)) = false
  /\ state (flash_block (service m)) = successor (state m).
Proof.
  intros m H. rewrite state_flash_block. split.
  - unfold service. rewrite H. clear H. by_cases.
  - unfold service. rewrite H. rewrite state_transition.
    destruct m as [ck s2 i r g se lt fc rc pr ld fl lf ft st]. reflexivity.
Qed.

(** C10.  When the press settle condition holds but S2 reads high, lines
    69-78 still report the press, reset [fall_count] and set [pressed] (which
    lines 91-119 of the same pass consume, advancing the state), and leave the
    attached interrupt and the red LED as they were.  Symmetrically, when the
    release settle condition holds but S2 reads low, lines 80-88 still report
    the release and reset [rise_count], and leave the attached interrupt and
    the red LED as they were. *)
Theorem settle_after_pin_changed : forall m,
  (press_settled m = true -> digitalRead_S2 m = true ->
     serial (press_block m) = serial m ++ [Print pressed_msg; PrintlnInt (fall_count m)]
     /\ pressed (press_block m) = true
     /\ fall_count (press_block m) = 0
     /\ isr (press_block m) = isr m
     /\ RED_LED (press_block m) = RED_LED m
     /\ pressed (loop m) = false
     /\ state (loop m) = successor (state m))
  /\
  (release_settled m = true -> digitalRead_S2 m = false ->
     serial (release_block m) = serial m ++ [Print released_msg; PrintlnInt (rise_count m)]
     /\ rise_count (release_block m) = 0
     /\ isr (release_block m) = isr m
     /\ RED_LED (release_block m) = RED_LED m).
Proof.
  intros m. split; intros H Hp.
  - destruct (press_block_fires m H) as (H1 & H2 & H3).
    destruct (press_block_pin_high m H Hp) as (H4 & H5).
    destruct (release_block_keeps_indicator (press_block m)) as (H6 & H7).
    rewrite H2 in H6.
    destruct (pressed_flag_consumed _ H6) as (H8 & H9).
    unfold loop. rewrite H8, H9, H7.
    assert (Hst : state (press_block m) = state m) by (clear; by_cases).
    rewrite Hst. repeat split; assumption.
  - destruct (release_block_fires m H) as (H1 & _ & H3).
    destruct (release_block_pin_low m H Hp) as (H4 & H5).
    repeat split; assumption.
Qed.

Lemma settle_after_pin_changed_witness :
  (let m := set_clock 100 (set_fall_count 2 (setup reset)) in
   serial (press_block m) = [Print pressed_msg; PrintlnInt 2]
   /\ pressed (press_block m) = true
   /\ fall_count (press_block m) = 0
   /\ isr (press_block m) = Some FALLING
   /\ RED_LED (press_block m) = false
   /\ pressed (loop m) = false
   /\ state (loop m) = ON)
  /\
  (let m := set_S2 false (set_clock 200 (set_rise_count 2 (after_press 100))) in
   serial (release_block m) = serial m ++ [Print released_msg; PrintlnInt 2]
   /\ rise_count (release_block m) = 0
   /\ isr (release_block m) = Some RISING
   /\ RED_LED (release_block m) = true).
Proof.
  split.
  - apply (proj1 (settle_after_pin_changed
                    (set_clock 100 (set_fall_count 2 (setup reset)))));
      reflexivity.
  - apply (proj2 (settle_after_pin_changed
                    (set_S2 false (set_clock 200 (set_rise_count 2 (after_press 100))))));
      reflexivity.
Defined.

(** * Further properties *)

(** ** A pass with nothing to do *)

Lemma loop_fixed : forall m,
  press_settled m = false -> release_settled m = false ->
  pressed m = false -> flash_due m = false ->
  loop m = m.
Proof.
  intros m H1 H2 H3 H4. unfold loop.
  rewrite (press_block_idle m H1), (release_block_idle m H2).
  unfold service. rewrite H3. unfold flash_block. rewrite H4. reflexivity.
Qed.

Lemma pressed_loop : forall m, pressed (loop m) = false.
Proof.
  intros m. unfold loop.
  destruct (flash_block_frame (service (release_block (press_block m))))
    as (_ & _ & _ & _ & _ & -> & _).
  unfold service. destruct (pressed (release_block (press_block m))) eqn:E; [|exact E].
  clear. generalize (release_block (press_block m)). by_cases.
Qed.

Lemma quiet_loop : forall m, quiet (loop m) = quiet m.
Proof.
  intros m. unfold quiet. destruct (loop_keeps_times m) as [-> ->]. reflexivity.
Qed.

Lemma press_settled_loop : forall m, press_settled (loop m) = false.
Proof.
  intros m. unfold press_settled. rewrite quiet_loop.
  unfold fall_seen, loop. rewrite rest_keeps_fall_count.
  destruct (press_settled m) eqn:E.
  - destruct (press_block_fires m E) as (_ & _ & ->). reflexivity.
  - rewrite (press_block_idle m E). exact E.
Qed.

Lemma release_settled_press_block : forall m,
  release_settled (press_block m) = release_settled m.
Proof.
  intros m. unfold release_settled, rise_seen, quiet.
  destruct (press_block_frame m) as (-> & -> & -> & _). reflexivity.
Qed.

Lemma release_settled_loop : forall m, release_settled (loop m) = false.
Proof.
  intros m. unfold release_settled. rewrite quiet_loop.
  unfold rise_seen, loop.
  destruct (rest_isr (release_block (press_block m))) as [_ ->].
  destruct (release_settled (press_block m)) eqn:E.
  - destruct (release_block_fires _ E) as (_ & _ & ->). reflexivity.
  - rewrite (release_block_idle _ E).
    rewrite release_settled_press_block in E.
    destruct (press_block_frame m) as (_ & _ & -> & _). exact E.
Qed.

Lemma flash_due_flash_block : forall m, flash_due (flash_block m) = false.
Proof.
  intros m. unfold flash_block. destruct (flash_due m) eqn:E; [|exact E].
  destruct m as [ck s2 i r g se lt fc rc pr ld fl lf ft st].
  unfold flash_due, toggle. msimpl. rewrite to_ulong_self.
  destruct fl; [|reflexivity]. cbn [andb]. apply Z.ltb_ge.
  unfold to_ulong. apply Z.mod_pos_bound. reflexivity.
Qed.

(** X3.  A second pass through [loop] in the same millisecond, with no
    interrupt in between, changes nothing: whatever the first pass found to
    report, reset, consume or toggle, the second finds nothing. *)
Theorem loop_idempotent : forall m, loop (loop m) = loop m.
Proof.
  intros m. apply loop_fixed.
  - apply press_settled_loop.
  - apply release_settled_loop.
  - apply pressed_loop.
  - unfold loop at 1. apply flash_due_flash_block.
Qed.

(** ** What one pass does to the counts, the reports and the state *)

Lemma state_loop : forall m,
  state (loop m) =
  if press_settled m || pressed m then successor (state m) else state m.
Proof.
  intros m. unfold loop. rewrite state_flash_block.
  destruct (release_block_keeps_indicator (press_block m)) as [Ep Es].
  unfold service. rewrite Ep.
  destruct (press_block_frame m) as (_ & _ & _ & Est & _).
  destruct (press_settled m) eqn:E; cbn [orb].
  - destruct (press_block_fires m E) as (_ & -> & _).
    rewrite state_transition.
    generalize (release_block (press_block m)), Es. intros x Hx.
    destruct x as [ck s2 i r g se lt fc rc pr ld fl lf ft st].
    cbn [set_pressed state] in *. rewrite Hx, Est. reflexivity.
  - rewrite (press_block_idle m E) in *.
    destruct (pressed m) eqn:P.
    + rewrite state_transition.
      generalize (release_block m), Es. intros x Hx.
      destruct x as [ck s2 i r g se lt fc rc pr ld fl lf ft st].
      cbn [set_pressed state] in *. rewrite Hx. reflexivity.
    + exact Es.
Qed.

Lemma loop_effects : forall m,
  state (loop m) = (if press_settled m || pressed m then successor (state m) else state m)
  /\ pressed (loop m) = false
  /\ pressed_events (loop m) =
     (pressed_events m + if press_settled m then 1 else 0)%nat
  /\ released_events (loop m) =
     (released_events m + if release_settled m then 1 else 0)%nat
  /\ fall_count (loop m) = (if press_settled m then 0 else fall_count m)
  /\ rise_count (loop m) = (if release_settled m then 0 else rise_count m)
  /\ millis (loop m) = millis m
  /\ last_time (loop m) = last_time m.
Proof.
  intros m. split; [apply state_loop|]. split; [apply pressed_loop|].
  destruct (loop_keeps_times m) as [Hc Hl].
  repeat split; try assumption.
  - unfold loop. rewrite rest_keeps_pressed_events.
    destruct (press_settled m) eqn:E.
    + rewrite (pressed_events_press_block m E). lia.
    + rewrite (press_block_idle m E). lia.
  - unfold loop. rewrite rest_keeps_released_events.
    pose proof (release_settled_press_block m) as R.
    destruct (press_block_frame m) as (_ & _ & _ & _ & _ & Ep).
    destruct (release_settled m) eqn:E.
    + rewrite (released_events_release_block _ R), Ep. lia.
    + rewrite (release_block_idle _ R), Ep. lia.
  - unfold loop. rewrite rest_keeps_fall_count.
    destruct (press_settled m) eqn:E.
    + apply press_block_fires, E.
    + rewrite (press_block_idle m E). reflexivity.
  - unfold loop.
    destruct (rest_isr (release_block (press_block m))) as [_ ->].
    pose proof (release_settled_press_block m) as R.
    destruct (release_settled m) eqn:E.
    + apply release_block_fires, R.
    + rewrite (release_block_idle _ R). apply press_block_frame.
Qed.

(** ** [setup] *)

Lemma environment_before_setup : forall tr m,
  forallb is_Edge_or_Tick tr = true ->
  isr m = None ->
  exists ck s2, run tr (L55, m) = (L55, set_S2 s2 (set_clock ck m)).
Proof.
  induction tr as [|ev tr IH] using rev_ind; intros m Hb Hi.
  - exists (clock m), (S2 m). destruct m. reflexivity.
  - rewrite forallb_app in Hb. apply andb_true_iff in Hb. destruct Hb as [Hb Hev].
    destruct (IH m Hb Hi) as (ck & s2 & E).
    rewrite run_app, E. cbn [run fold_left].
    destruct m as [ck0 s20 i r g se lt fc rc pr ld fl lf ft st].
    cbn [isr] in Hi. subst i.
    destruct ev as [|[|]| |]; try discriminate Hev; cbn [step fst snd].
    + exists (to_ulong (ck + 1)), s2. reflexivity.
    + exists ck, false. reflexivity.
    + exists ck, true. reflexivity.
Qed.

(** X1.  Whatever the switch does and however long it takes before
    [setup] runs, [setup] leaves the falling interrupt attached, both LEDs off,
    both counts at 0, [last_time] at the current time and nothing on the serial
    line (edges before [attachInterrupt] are not counted), and the first pass
    through [loop] changes nothing. *)
Theorem setup_leaves_the_sketch_idle : forall tr,
  forallb is_Edge_or_Tick tr = true ->
  let c := run (tr ++ [Run; Run]) power_up in
  fst c = L69a
  /\ isr (snd c) = Some FALLING
  /\ RED_LED (snd c) = false /\ GREEN_LED (snd c) = false
  /\ fall_count (snd c) = 0 /\ rise_count (snd c) = 0
  /\ last_time (snd c) = millis (snd c)
  /\ serial (snd c) = []
  /\ state (snd c) = OFF
  /\ loop (snd c) = snd c.
Proof.
  intros tr Hb. cbv zeta. rewrite run_app.
  destruct (environment_before_setup tr reset Hb eq_refl) as (ck & s2 & E).
  unfold power_up. rewrite E. cbn. repeat split.
Qed.

Lemma setup_leaves_the_sketch_idle_witness :
  let c := run ([Tick; Edge FALLING; Tick; Edge RISING; Edge FALLING] ++ [Run; Run]) power_up in
  fst c = L69a
  /\ isr (snd c) = Some FALLING
  /\ RED_LED (snd c) = false /\ GREEN_LED (snd c) = false
  /\ fall_count (snd c) = 0 /\ rise_count (snd c) = 0
  /\ last_time (snd c) = millis (snd c)
  /\ serial (snd c) = []
  /\ state (snd c) = OFF
  /\ loop (snd c) = snd c.
Proof.
  apply (setup_leaves_the_sketch_idle
           [Tick; Edge FALLING; Tick; Edge RISING; Edge FALLING]).
  reflexivity.
Defined.

(** ** Waiting *)

Lemma wait_S : forall k m, wait (S k) m = tick (wait k m).
Proof. reflexivity. Qed.

Lemma wait_keeps : forall k m,
  last_time (wait k m) = last_time m
  /\ fall_count (wait k m) = fall_count m
  /\ rise_count (wait k m) = rise_count m
  /\ flash (wait k m) = flash m
  /\ flash_time (wait k m) = flash_time m
  /\ last_flash (wait k m) = last_flash m
  /\ led (wait k m) = led m
  /\ S2 (wait k m) = S2 m
  /\ isr (wait k m) = isr m
  /\ serial (wait k m) = serial m.
Proof.
  induction k as [|k IH]; intros m; [repeat split|].
  rewrite wait_S. destruct (IH m) as (H1 & H2 & H3 & H4 & H5 & H6 & H7 & H8 & H9 & H10).
  destruct (wait k m) as [ck s2 i r g se lt fc rc pr ld fl lf ft st].
  cbn in *. repeat split; assumption.
Qed.

Lemma elapsed_wait : forall k m x,
  to_ulong (millis (wait k m) - x) = to_ulong (to_ulong (millis m - x) + Z.of_nat k).
Proof.
  induction k as [|k IH]; intros m x.
  - cbn [wait Nat.iter Z.of_nat]. rewrite Z.add_0_r. unfold to_ulong.
    rewrite Z.mod_mod; [reflexivity | discriminate].
  - rewrite wait_S.
    assert (E : millis (tick (wait k m)) = to_ulong (millis (wait k m) + 1)).
    { destruct (wait k m); reflexivity. }
    rewrite E. unfold to_ulong in *.
    rewrite Zminus_mod_idemp_l.
    replace (millis (wait k m) + 1 - x) with ((millis (wait k m) - x) + 1) by lia.
    rewrite <- Zplus_mod_idemp_l, IH, Zplus_mod_idemp_l.
    f_equal. lia.
Qed.

Lemma elapsed_since : forall k m x,
  millis m = x -> Z.of_nat k < 2 ^ 32 ->
  to_ulong (millis (wait k m) - x) = Z.of_nat k.
Proof.
  intros k m x <- Hk. rewrite elapsed_wait, to_ulong_self.
  unfold to_ulong. apply Z.mod_small. lia.
Qed.

Lemma debounce_window : forall m k,
  Z.of_nat k < 2 ^ 32 ->
  quiet (wait k (falling m)) = (DEBOUNCE_TIME <? Z.of_nat k)
  /\ quiet (wait k (rising m)) = (DEBOUNCE_TIME <? Z.of_nat k)
  /\ press_settled (wait k (falling m)) =
     negb (to_int (fall_count m + 1) =? 0) && (DEBOUNCE_TIME <? Z.of_nat k)
  /\ release_settled (wait k (rising m)) =
     negb (to_int (rise_count m + 1) =? 0) && (DEBOUNCE_TIME <? Z.of_nat k).
Proof.
  intros m k Hk.
  assert (Qf : quiet (wait k (falling m)) = (DEBOUNCE_TIME <? Z.of_nat k)).
  { unfold quiet. destruct (wait_keeps k (falling m)) as (-> & _).
    rewrite (elapsed_since k (falling m)); [reflexivity | | exact Hk].
    destruct m; reflexivity. }
  assert (Qr : quiet (wait k (rising m)) = (DEBOUNCE_TIME <? Z.of_nat k)).
  { unfold quiet. destruct (wait_keeps k (rising m)) as (-> & _).
    rewrite (elapsed_since k (rising m)); [reflexivity | | exact Hk].
    destruct m; reflexivity. }
  repeat split; try assumption.
  - unfold press_settled, fall_seen. rewrite Qf.
    destruct (wait_keeps k (falling m)) as (_ & -> & _).
    destruct m; reflexivity.
  - unfold release_settled, rise_seen. rewrite Qr.
    destruct (wait_keeps k (rising m)) as (_ & _ & -> & _).
    destruct m; reflexivity.
Qed.



Lemma to_ulong_small : forall z, 0 <= z < 2 ^ 32 -> to_ulong z = z.
Proof. intros z H. unfold to_ulong. apply Z.mod_small, H. Qed.

(** X5.  After the flash service has toggled, [k] milliseconds later
    (k < 2^32, [flash_time] non-negative) it is due again exactly when
    k > [flash_time], also across the rollover of the millisecond counter;
    until then [led] stays inverted, and the next service inverts it back. *)
Theorem flash_period_is_exact : forall m k,
  flash_due m = true ->
  0 <= flash_time m < 2 ^ 32 ->
  Z.of_nat k < 2 ^ 32 ->
  flash_due (wait k (flash_block m)) = (flash_time m <? Z.of_nat k)
  /\ led (wait k (flash_block m)) = negb (led m)
  /\ led (flash_block (wait k (flash_block m))) =
     (if flash_time m <? Z.of_nat k then led m else negb (led m)).
Proof.
  intros m k Hd Hft Hk.
  assert (F : flash (flash_block m) = true /\ flash_time (flash_block m) = flash_time m
              /\ last_flash (flash_block m) = millis (flash_block m)
              /\ led (flash_block m) = negb (led m)).
  { unfold flash_block. rewrite Hd. unfold flash_due in Hd.
    apply andb_true_iff in Hd. destruct Hd as [Hf _].
    destruct m as [ck s2 i r g se lt fc rc pr ld fl lf ft st].
    cbn in *. auto. }
  destruct F as (F1 & F2 & F3 & F4).
  destruct (wait_keeps k (flash_block m)) as (_ & _ & _ & W1 & W2 & W3 & W4 & _).
  assert (D : flash_due (wait k (flash_block m)) = (flash_time m <? Z.of_nat k)).
  { unfold flash_due. rewrite W1, W2, W3, F1, F2, F3. cbn [andb].
    rewrite (elapsed_since k (flash_block m) _ eq_refl Hk).
    rewrite (to_ulong_small _ Hft). reflexivity. }
  split; [exact D|]. split; [rewrite W4; exact F4|].
  unfold flash_block at 1. rewrite D.
  destruct (flash_time m <? Z.of_nat k).
  - generalize (wait k (flash_block m)), W4. intros x Hx.
    destruct x as [ck s2 i r g se lt fc rc pr ld fl lf ft st].
    cbn in *. rewrite Hx, F4. apply negb_involutive.
  - rewrite W4. exact F4.
Qed.

Lemma flash_period_is_exact_witness :
  flash_due (wait 1001 (flash_block (set_clock 2000 (sm_run [SmPressed; SmPressed] reset))))
  = (flash_time (set_clock 2000 (sm_run [SmPressed; SmPressed] reset)) <? Z.of_nat 1001)
  /\ led (wait 1001 (flash_block (set_clock 2000 (sm_run [SmPressed; SmPressed] reset))))
     = negb (led (set_clock 2000 (sm_run [SmPressed; SmPressed] reset)))
  /\ led (flash_block
            (wait 1001 (flash_block (set_clock 2000 (sm_run [SmPressed; SmPressed] reset)))))
     = (if flash_time (set_clock 2000 (sm_run [SmPressed; SmPressed] reset)) <? Z.of_nat 1001
        then led (set_clock 2000 (sm_run [SmPressed; SmPressed] reset))
        else negb (led (set_clock 2000 (sm_run [SmPressed; SmPressed] reset)))).
Proof.
  apply (flash_period_is_exact (set_clock 2000 (sm_run [SmPressed; SmPressed] reset)) 1001).
  - reflexivity.
  - vm_compute. split; [discriminate | reflexivity].
  - reflexivity.
Defined.

(** ** One direction at a time *)

(** X6.  When no pass through [loop] is interrupted, a non-zero count
    belongs to the direction whose interrupt is attached: the two counts are
    never non-zero together. *)
Theorem one_direction_at_a_time : forall tr c,
  fst c = L69a -> fall_count (snd c) = 0 -> rise_count (snd c) = 0 ->
  uninterrupted tr ->
  (fall_count (snd (run tr c)) <> 0 -> isr (snd (run tr c)) = Some FALLING)
  /\ (rise_count (snd (run tr c)) <> 0 -> isr (snd (run tr c)) = Some RISING)
  /\ (fall_count (snd (run tr c)) = 0 \/ rise_count (snd (run tr c)) = 0).
Proof.
  intros tr c Hp Hf Hr Hu.
  destruct (tracked_run tr c Hp Hf Hr Hu) as [_ (_ & Tf & Tr)].
  assert (A : fall_count (snd (run tr c)) <> 0 -> isr (snd (run tr c)) = Some FALLING).
  { intros H. apply (Tf H). }
  assert (B : rise_count (snd (run tr c)) <> 0 -> isr (snd (run tr c)) = Some RISING).
  { intros H. apply (Tr H). }
  split; [exact A|]. split; [exact B|].
  destruct (Z.eq_dec (fall_count (snd (run tr c))) 0) as [E | E]; [left; exact E|].
  destruct (Z.eq_dec (rise_count (snd (run tr c))) 0) as [E' | E']; [right; exact E'|].
  specialize (A E). specialize (B E'). congruence.
Qed.

Lemma one_direction_at_a_time_witness :
  let tr := [Edge FALLING; Tick; Poll; Edge RISING; Edge FALLING] in
  (fall_count (snd (run tr booted)) <> 0 -> isr (snd (run tr booted)) = Some FALLING)
  /\ (rise_count (snd (run tr booted)) <> 0 -> isr (snd (run tr booted)) = Some RISING)
  /\ (fall_count (snd (run tr booted)) = 0 \/ rise_count (snd (run tr booted)) = 0).
Proof.
  apply (one_direction_at_a_time [Edge FALLING; Tick; Poll; Edge RISING; Edge FALLING] booted);
    reflexivity.
Defined.

(** ** The red LED *)

Lemma red_press_block : forall m,
  RED_LED m = waiting_for_release m ->
  RED_LED (press_block m) = waiting_for_release (press_block m).
Proof. unfold waiting_for_release. by_cases. Qed.

Lemma red_release_block : forall m,
  RED_LED m = waiting_for_release m ->
  RED_LED (release_block m) = waiting_for_release (release_block m).
Proof. unfold waiting_for_release. by_cases. Qed.

Lemma red_frame : forall m m',
  RED_LED m' = RED_LED m -> isr m' = isr m ->
  RED_LED m = waiting_for_release m ->
  RED_LED m' = waiting_for_release m'.
Proof. unfold waiting_for_release. intros m m' -> ->. auto. Qed.

Lemma red_loop : forall m,
  RED_LED m = waiting_for_release m ->
  RED_LED (loop m) = waiting_for_release (loop m).
Proof.
  intros m H. unfold loop.
  apply (red_frame (release_block (press_block m))).
  - clear. generalize (release_block (press_block m)). intros x.
    transitivity (RED_LED (service x)); clear; by_cases.
  - apply rest_isr.
  - apply red_release_block, red_press_block, H.
Qed.

Lemma red_exec : forall c, red_shows_armed c -> red_shows_armed (exec c).
Proof.
  intros [p m] H. unfold red_shows_armed in *. cbn [fst snd] in H.
  destruct p; case_exec; try exact H;
    try (revert H; apply red_frame; clear; by_cases; fail);
    try (unfold waiting_for_release; revert H; clear;
         destruct m as [ck s2 i r g se lt fc rc pr ld fl lf ft st]; cbn;
         intros; subst; reflexivity).
Qed.

Lemma red_step : forall c ev, red_shows_armed c -> red_shows_armed (step c ev).
Proof.
  intros [p m] ev H. destruct ev as [|e| |]; cbn [step fst snd].
  - unfold red_shows_armed in *. cbn [fst snd] in *.
    destruct m as [ck s2 i r g se lt fc rc pr ld fl lf ft st]. exact H.
  - unfold red_shows_armed in *. cbn [fst snd] in *.
    destruct m as [ck s2 [[|]|] r g se lt fc rc pr ld fl lf ft st], e; exact H.
  - apply red_exec, H.
  - destruct p; try exact H. unfold red_shows_armed in *. cbn [fst snd] in *.
    apply red_loop, H.
Qed.

Lemma red_run : forall tr c, red_shows_armed c -> red_shows_armed (run tr c).
Proof.
  induction tr as [|ev tr IH]; intros c H; [exact H|].
  cbn [run fold_left]. apply IH, red_step, H.
Qed.

(** X7.  In every trace from power-up, with interrupts anywhere, the red
    LED is on exactly when the rising interrupt is attached (the sketch waits
    for the release), except between the two statements that write them
    (before lines 76 and 86). *)
Theorem red_led_shows_waiting_for_release : forall tr,
  fst (run tr power_up) <> L76 -> fst (run tr power_up) <> L86 ->
  (RED_LED (snd (run tr power_up)) = true <->
   isr (snd (run tr power_up)) = Some RISING).
Proof.
  intros tr H1 H2.
  assert (H : red_shows_armed (run tr power_up)) by (apply red_run; reflexivity).
  unfold red_shows_armed in H.
  destruct (run tr power_up) as [p m]. cbn [fst snd] in *.
  assert (E : RED_LED m = waiting_for_release m) by (destruct p; congruence).
  rewrite E. unfold waiting_for_release.
  destruct (isr m) as [[|]|]; split; intros X; congruence.
Qed.

Lemma red_led_shows_waiting_for_release_witness :
  RED_LED (snd (run ([Run; Run] ++ scenario 63) power_up)) = true <->
  isr (snd (run ([Run; Run] ++ scenario 63) power_up)) = Some RISING.
Proof.
  apply (red_led_shows_waiting_for_release ([Run; Run] ++ scenario 63));
    vm_compute; discriminate.
Defined.

(** ** What the green LED and the flash interval show *)
















(** ** The state counts the presses *)

Lemma exec_indicator : forall p m,
  p <> L91 ->
  state (snd (exec (p, m))) = state m
  /\ pressed (snd (exec (p, m))) = match p with L73 => true | _ => pressed m end.
Proof.
  intros p m Hp. destruct p; try congruence; case_exec; split; try reflexivity;
    clear; by_cases.
Qed.

Lemma successor_mod4 : forall s,
  indicator_state s -> successor s = (s + 1) mod 4 /\ indicator_state (successor s).
Proof.
  intros s [-> | [-> | [-> | ->]]]; split; try reflexivity;
    unfold indicator_state; cbn; auto.
Qed.

Lemma service_counts : forall m,
  indicator_state (state m) ->
  indicator_state (state (service m))
  /\ pressed (service m) = false
  /\ state (service m) mod 4 = (state m + if pressed m then 1 else 0) mod 4.
Proof.
  intros m Hs. unfold service. destruct (pressed m) eqn:E.
  - rewrite state_transition.
    assert (Est : state (set_pressed false m) = state m) by (destruct m; reflexivity).
    rewrite Est. destruct (successor_mod4 _ Hs) as [-> Hi].
    split; [|split].
    + exact Hi.
    + clear. by_cases.
    + apply Z.mod_mod. discriminate.
  - rewrite Z.add_0_r. auto.
Qed.

Lemma mod4_succ : forall a n,
  a mod 4 = Z.of_nat n mod 4 -> (a + 1) mod 4 = Z.of_nat (S n) mod 4.
Proof.
  intros a n H. rewrite Nat2Z.inj_succ. unfold Z.succ.
  rewrite <- Zplus_mod_idemp_l, H, Zplus_mod_idemp_l. reflexivity.
Qed.

Lemma pc_eq_L91 : forall p, p = L91 \/ p <> L91.
Proof. intros p. destruct p; auto; right; discriminate. Qed.

Lemma counted_exec : forall c, presses_counted c -> presses_counted (exec c).
Proof.
  intros [p m] (Hs & Hc & Hf). unfold presses_counted, owed in *.
  cbn [fst snd] in Hs, Hc, Hf.
  destruct (pc_eq_L91 p) as [-> | Hp].
  - cbn [exec fst snd flag_may_be_set].
    destruct (service_counts m Hs) as (S1 & S2 & S3).
    destruct (service_frame m) as (_ & _ & _ & _ & _ & -> & _).
    rewrite S2, Z.add_0_r, S3. auto.
  - destruct (exec_indicator p m Hp) as [Es Ep].
    pose proof (report_only_on_line_70 p m) as Er.
    revert Es Ep Er.
    destruct p; try congruence; cbn [exec];
      try match goal with
          | |- context [if ?b then (_, _) else _] => destruct b
          end;
      cbn [fst snd flag_may_be_set] in *; intros Es Ep Er;
      try rewrite Es; try rewrite Ep; try rewrite Er;
      try (rewrite (Hf eq_refl) in *);
      (split; [exact Hs | split; [| auto; intros X; discriminate X]]);
      try exact Hc;
      try (rewrite Z.add_0_r in Hc; apply mod4_succ, Hc).
Qed.

Lemma counted_frame : forall p m m',
  state m' = state m -> pressed m' = pressed m -> serial m' = serial m ->
  presses_counted (p, m) -> presses_counted (p, m').
Proof.
  unfold presses_counted, owed, pressed_events. cbn [fst snd].
  intros p m m' -> -> ->. auto.
Qed.

Lemma counted_loop : forall m,
  presses_counted (L69a, m) -> presses_counted (L69a, loop m).
Proof.
  intros m (Hs & Hc & Hf). unfold presses_counted, owed in *. cbn [fst snd] in *.
  specialize (Hf eq_refl). rewrite Hf in Hc.
  destruct (loop_effects m) as (E1 & E2 & E3 & _).
  rewrite E1, E2, E3, Hf, orb_false_r.
  destruct (successor_mod4 _ Hs) as [Em Hi].
  destruct (press_settled m).
  - split; [exact Hi|]. split; [|auto].
    rewrite Em, Z.add_0_r, Z.mod_mod by discriminate.
    rewrite Z.add_0_r in Hc. replace (pressed_events m + 1)%nat with (S (pressed_events m)) by lia.
    apply mod4_succ, Hc.
  - rewrite Nat.add_0_r. auto.
Qed.

Lemma counted_step : forall c ev, presses_counted c -> presses_counted (step c ev).
Proof.
  intros [p m] ev H. destruct ev as [|e| |]; cbn [step fst snd].
  - revert H. apply counted_frame;
      destruct m as [ck s2 i r g se lt fc rc pr ld fl lf ft st]; reflexivity.
  - revert H. apply counted_frame;
      destruct m as [ck s2 [[|]|] r g se lt fc rc pr ld fl lf ft st], e; reflexivity.
  - apply counted_exec, H.
  - destruct p; try exact H. apply counted_loop, H.
Qed.

Lemma counted_run : forall tr c, presses_counted c -> presses_counted (run tr c).
Proof.
  induction tr as [|ev tr IH]; intros c H; [exact H|].
  cbn [run fold_left]. apply IH, counted_step, H.
Qed.

Lemma counted_power_up : presses_counted power_up.
Proof. repeat split. left. reflexivity. Qed.

(** X9.  In every trace from power-up, with interrupts anywhere, whenever
    the main program is at the top of [loop] the state is the number of
    presses reported on the serial line, modulo 4: the state machine takes
    every reported press exactly once. *)
Theorem state_counts_the_presses : forall tr,
  fst (run tr power_up) = L69a ->
  state (snd (run tr power_up)) =
  Z.of_nat (pressed_events (snd (run tr power_up))) mod 4.
Proof.
  intros tr Hp.
  destruct (counted_run tr power_up counted_power_up) as (Hs & Hc & Hf).
  unfold owed in Hc. rewrite Hp in Hc, Hf. rewrite (Hf eq_refl), Z.add_0_r in Hc.
  rewrite <- Hc. symmetry. apply Z.mod_small.
  destruct Hs as [-> | [-> | [-> | ->]]]; cbv; split; congruence.
Qed.

Lemma state_counts_the_presses_witness :
  state (snd (run ([Run; Run] ++ scenario 63) power_up)) =
  Z.of_nat (pressed_events (snd (run ([Run; Run] ++ scenario 63) power_up))) mod 4.
Proof.
  apply (state_counts_the_presses ([Run; Run] ++ scenario 63)).
  vm_compute. reflexivity.
Defined.

(** ** A burst, then quiet *)

Lemma run_ticks : forall k p m, run (repeat Tick k) (p, m) = (p, wait k m).
Proof.
  induction k as [|k IH]; intros p m; [reflexivity|].
  cbn [repeat run fold_left step fst snd]. fold (run (repeat Tick k) (p, tick m)).
  rewrite IH. unfold wait. rewrite Nat.iter_succ_r. reflexivity.
Qed.

Lemma burst_keeps : forall tr p m,
  forallb is_Edge_or_Tick tr = true ->
  fst (run tr (p, m)) = p
  /\ serial (snd (run tr (p, m))) = serial m
  /\ isr (snd (run tr (p, m))) = isr m
  /\ RED_LED (snd (run tr (p, m))) = RED_LED m
  /\ pressed (snd (run tr (p, m))) = pressed m
  /\ state (snd (run tr (p, m))) = state m.
Proof.
  induction tr as [|ev tr IH] using rev_ind; intros p m Hb; [repeat split|].
  rewrite forallb_app in Hb. apply andb_true_iff in Hb. destruct Hb as [Hb Hev].
  destruct (IH p m Hb) as (H1 & H2 & H3 & H4 & H5 & H6).
  rewrite run_app. cbn [run fold_left].
  destruct (run tr (p, m)) as [p' m']. cbn [fst snd] in *. subst p'.
  rewrite <- H2, <- H3, <- H4, <- H5, <- H6.
  destruct m' as [ck s2 [[|]|] r g se lt fc rc pr ld fl lf ft st];
    destruct ev as [|[|]| |]; try discriminate Hev; repeat split.
Qed.

Lemma rises_snoc : forall tr ev,
  rises (tr ++ [ev]) = (rises tr + if is_rising_edge ev then 1 else 0)%nat.
Proof.
  intros tr ev. unfold rises. rewrite filter_app, length_app. cbn [filter].
  destruct (is_rising_edge ev); reflexivity.
Qed.

Lemma release_burst_is_counted : forall tr p m,
  forallb is_Edge_or_Tick tr = true ->
  isr m = Some RISING -> rise_count m = 0 ->
  rise_count (snd (run tr (p, m))) = to_int (Z.of_nat (rises tr)).
Proof.
  induction tr as [|ev tr IH] using rev_ind; intros p m Hb Hi H0.
  - exact H0.
  - rewrite forallb_app in Hb. apply andb_true_iff in Hb. destruct Hb as [Hb Hev].
    pose proof (IH p m Hb Hi H0) as IH2.
    destruct (burst_keeps tr p m Hb) as (_ & _ & IH1 & _). rewrite Hi in IH1.
    rewrite run_app, rises_snoc. cbn [run fold_left].
    destruct (run tr (p, m)) as [p' m']. cbn [snd] in IH1, IH2.
    destruct m' as [ck s2 i r g se lt fc rc pr ld fl lf ft st].
    cbn [isr rise_count] in IH1, IH2. subst i.
    destruct ev as [|[|]| |]; try discriminate Hev;
      cbn [step fst snd tick pin_edge falling rising set_clock set_S2 isr
           set_fall_count set_rise_count set_last_time fall_count rise_count millis
           is_rising_edge];
      rewrite ?Nat.add_0_r; try exact IH2.
    rewrite IH2, to_int_succ. f_equal. lia.
Qed.

Lemma small_count : forall n, (n < 2 ^ 15)%nat -> to_int (Z.of_nat n) = Z.of_nat n.
Proof.
  intros n H. apply to_int_small.
  assert (Z.of_nat n < Z.of_nat (2 ^ 15)) by lia.
  rewrite Nat2Z.inj_pow in H0. change (Z.of_nat 2) with 2 in H0.
  change (Z.of_nat 15) with 15 in H0. lia.
Qed.

(** X10.  With the falling interrupt attached and the count at 0: after any
    burst of edges and ticks that ends with a falling edge followed by [k]
    quiet milliseconds (fewer than 2^15 falling edges, k < 2^32), the press
    settle condition holds exactly when k > 50; lines 69-78 then report the
    number of falling edges of the burst, reset the count, set [pressed],
    attach the rising interrupt and turn the red LED on. *)
Theorem burst_then_quiet_is_one_press : forall tr k p m,
  forallb is_Edge_or_Tick tr = true ->
  isr m = Some FALLING -> fall_count m = 0 ->
  (S (falls tr) < 2 ^ 15)%nat ->
  Z.of_nat k < 2 ^ 32 ->
  let m' := snd (run (tr ++ Edge FALLING :: repeat Tick k) (p, m)) in
  press_settled m' = (DEBOUNCE_TIME <? Z.of_nat k)
  /\ (DEBOUNCE_TIME < Z.of_nat k ->
      serial (press_block m') =
        serial m ++ [Print pressed_msg; PrintlnInt (Z.of_nat (S (falls tr)))]
      /\ fall_count (press_block m') = 0
      /\ pressed (press_block m') = true
      /\ isr (press_block m') = Some RISING
      /\ RED_LED (press_block m') = true).
Proof.
  intros tr k p m Hb Hi H0 Hn Hk. cbv zeta.
  destruct (burst_is_counted tr p m Hb Hi H0) as [B1 B2].
  destruct (burst_keeps tr p m Hb) as (Bp & Bs & _).
  rewrite run_app. destruct (run tr (p, m)) as [p1 m1]. cbn [fst snd] in *. subst p1.
  cbn [run fold_left step fst snd]. fold (run (repeat Tick k) (p, pin_edge FALLING m1)).
  rewrite run_ticks. cbn [snd].
  assert (E : pin_edge FALLING m1 = falling (set_S2 false m1)).
  { destruct m1 as [ck s2 i r g se lt fc rc pr ld fl lf ft st].
    cbn [isr] in B1. subst i. reflexivity. }
  rewrite E.
  destruct (debounce_window (set_S2 false m1) k Hk) as (_ & _ & Ps & _).
  assert (Ec : fall_count (set_S2 false m1) = fall_count m1) by (destruct m1; reflexivity).
  rewrite Ec, B2, to_int_succ in Ps.
  replace (Z.of_nat (falls tr) + 1) with (Z.of_nat (S (falls tr))) in Ps by lia.
  rewrite (small_count _ Hn) in Ps.
  replace (Z.of_nat (S (falls tr)) =? 0) with false in Ps
    by (symmetry; apply Z.eqb_neq; lia).
  cbn [negb andb] in Ps.
  split; [exact Ps|].
  intros Hq. apply Z.ltb_lt in Hq. rewrite Hq in Ps.
  destruct (press_block_fires _ Ps) as (F1 & F2 & F3).
  destruct (wait_keeps k (falling (set_S2 false m1)))
    as (_ & W2 & _ & _ & _ & _ & _ & W8 & W9 & W10).
  rewrite F1, W2, W10.
  assert (X : serial (falling (set_S2 false m1)) = serial m1
              /\ fall_count (falling (set_S2 false m1)) = to_int (fall_count m1 + 1)
              /\ S2 (falling (set_S2 false m1)) = false).
  { destruct m1; repeat split. }
  destruct X as (X1 & X2 & X3).
  rewrite X1, X2, B2, to_int_succ, Bs.
  replace (Z.of_nat (falls tr) + 1) with (Z.of_nat (S (falls tr))) by lia.
  rewrite (small_count _ Hn).
  split; [reflexivity|]. split; [exact F3|]. split; [exact F2|].
  unfold press_block. rewrite Ps. unfold digitalRead_S2.
  generalize (wait k (falling (set_S2 false m1))), W8. intros x Hx.
  rewrite X3 in Hx.
  destruct x as [ck s2 i r g se lt fc rc pr ld fl lf ft st]. cbn in Hx. subst s2.
  split; reflexivity.
Qed.

Lemma burst_then_quiet_is_one_press_witness :
  let tr := [Edge FALLING; Tick; Edge RISING; Tick] in
  let m' := snd (run (tr ++ Edge FALLING :: repeat Tick 51) (L69a, setup reset)) in
  press_settled m' = (DEBOUNCE_TIME <? Z.of_nat 51)
  /\ serial (press_block m') =
       serial (setup reset) ++ [Print pressed_msg; PrintlnInt (Z.of_nat (S (falls tr)))]
  /\ fall_count (press_block m') = 0
  /\ pressed (press_block m') = true
  /\ isr (press_block m') = Some RISING
  /\ RED_LED (press_block m') = true.
Proof.
  destruct (burst_then_quiet_is_one_press
              [Edge FALLING; Tick; Edge RISING; Tick] 51 L69a (setup reset))
    as [H1 H2]; try reflexivity.
  - apply Nat.ltb_lt. vm_compute. reflexivity.
  - split; [exact H1 | apply H2; reflexivity].
Defined.

(** X11.  With the rising interrupt attached and the count at 0: after any
    burst of edges and ticks that ends with a rising edge followed by [k]
    quiet milliseconds (fewer than 2^15 rising edges, k < 2^32), the release
    settle condition holds exactly when k > 50; lines 80-88 then report the
    number of rising edges of the burst, reset the count, attach the falling
    interrupt and turn the red LED off, and leave [pressed] and [state]
    alone. *)
Theorem release_burst_then_quiet_is_one_release : forall tr k p m,
  forallb is_Edge_or_Tick tr = true ->
  isr m = Some RISING -> rise_count m = 0 ->
  (S (rises tr) < 2 ^ 15)%nat ->
  Z.of_nat k < 2 ^ 32 ->
  let m' := snd (run (tr ++ Edge RISING :: repeat Tick k) (p, m)) in
  release_settled m' = (DEBOUNCE_TIME <? Z.of_nat k)
  /\ (DEBOUNCE_TIME < Z.of_nat k ->
      serial (release_block m') =
        serial m ++ [Print released_msg; PrintlnInt (Z.of_nat (S (rises tr)))]
      /\ rise_count (release_block m') = 0
      /\ isr (release_block m') = Some FALLING
      /\ RED_LED (release_block m') = false
      /\ pressed (release_block m') = pressed m
      /\ state (release_block m') = state m).
Proof.
  intros tr k p m Hb Hi H0 Hn Hk. cbv zeta.
  pose proof (release_burst_is_counted tr p m Hb Hi H0) as B2.
  destruct (burst_keeps tr p m Hb) as (Bp & Bs & B1 & _ & Bpr & Bst).
  rewrite Hi in B1.
  rewrite run_app. destruct (run tr (p, m)) as [p1 m1]. cbn [fst snd] in *. subst p1.
  cbn [run fold_left step fst snd]. fold (run (repeat Tick k) (p, pin_edge RISING m1)).
  rewrite run_ticks. cbn [snd].
  assert (E : pin_edge RISING m1 = rising (set_S2 true m1)).
  { destruct m1 as [ck s2 i r g se lt fc rc pr ld fl lf ft st].
    cbn [isr] in B1. subst i. reflexivity. }
  rewrite E.
  destruct (debounce_window (set_S2 true m1) k Hk) as (_ & _ & _ & Ps).
  assert (Ec : rise_count (set_S2 true m1) = rise_count m1) by (destruct m1; reflexivity).
  rewrite Ec, B2, to_int_succ in Ps.
  replace (Z.of_nat (rises tr) + 1) with (Z.of_nat (S (rises tr))) in Ps by lia.
  rewrite (small_count _ Hn) in Ps.
  replace (Z.of_nat (S (rises tr)) =? 0) with false in Ps
    by (symmetry; apply Z.eqb_neq; lia).
  cbn [negb andb] in Ps.
  split; [exact Ps|].
  intros Hq. apply Z.ltb_lt in Hq. rewrite Hq in Ps.
  destruct (release_block_fires _ Ps) as (F1 & F2 & F3).
  destruct (release_block_keeps_indicator (wait k (rising (set_S2 true m1)))) as [_ F4].
  destruct (wait_keeps k (rising (set_S2 true m1)))
    as (_ & _ & W3 & _ & _ & _ & _ & W8 & W9 & W10).
  rewrite F1, F2, F4, W3, W10.
  assert (X : serial (rising (set_S2 true m1)) = serial m1
              /\ rise_count (rising (set_S2 true m1)) = to_int (rise_count m1 + 1)
              /\ S2 (rising (set_S2 true m1)) = true
              /\ pressed (rising (set_S2 true m1)) = pressed m1
              /\ state (rising (set_S2 true m1)) = state m1).
  { destruct m1; repeat split. }
  destruct X as (X1 & X2 & X3 & X4 & X5).
  assert (Wp : pressed (wait k (rising (set_S2 true m1))) = pressed m1
               /\ state (wait k (rising (set_S2 true m1))) = state m1).
  { rewrite <- X4, <- X5. generalize (rising (set_S2 true m1)). clear.
    induction k as [|k IH]; intros x; [split; reflexivity|].
    rewrite wait_S. destruct (IH x) as [<- <-].
    destruct (wait k x); split; reflexivity. }
  destruct Wp as [Wp Ws].
  rewrite X1, X2, B2, to_int_succ, Bs, Wp, Ws, Bpr, Bst.
  replace (Z.of_nat (rises tr) + 1) with (Z.of_nat (S (rises tr))) by lia.
  rewrite (small_count _ Hn).
  split; [reflexivity|]. split; [exact F3|].
  assert (R : isr (release_block (wait k (rising (set_S2 true m1)))) = Some FALLING
              /\ RED_LED (release_block (wait k (rising (set_S2 true m1)))) = false).
  { unfold release_block. rewrite Ps. unfold digitalRead_S2.
    generalize (wait k (rising (set_S2 true m1))), W8. intros x Hx.
    rewrite X3 in Hx.
    destruct x as [ck s2 i r g se lt fc rc pr ld fl lf ft st]. cbn in Hx. subst s2.
    split; reflexivity. }
  destruct R as [R1 R2]. repeat split; assumption.
Qed.

Lemma release_burst_then_quiet_is_one_release_witness :
  let tr := [Edge RISING; Tick; Edge FALLING; Tick] in
  let m' := snd (run (tr ++ Edge RISING :: repeat Tick 60) (L69a, after_press 100)) in
  release_settled m' = (DEBOUNCE_TIME <? Z.of_nat 60)
  /\ serial (release_block m') =
       serial (after_press 100)
       ++ [Print released_msg; PrintlnInt (Z.of_nat (S (rises tr)))]
  /\ rise_count (release_block m') = 0
  /\ isr (release_block m') = Some FALLING
  /\ RED_LED (release_block m') = false
  /\ pressed (release_block m') = pressed (after_press 100)
  /\ state (release_block m') = state (after_press 100).
Proof.
  destruct (release_burst_then_quiet_is_one_release
              [Edge RISING; Tick; Edge FALLING; Tick] 60 L69a (after_press 100))
    as [H1 H2]; try reflexivity.
  - apply Nat.ltb_lt. vm_compute. reflexivity.
  - split; [exact H1 | apply H2; reflexivity].
Defined.

(** ** No edge is reported twice *)

Lemma tally_snoc : forall l it, tally (l ++ [it]) = tally_step (tally l) it.
Proof. intros. unfold tally. rewrite fold_left_app. reflexivity. Qed.

Lemma interrupts_app : forall e tr1 tr2 c,
  interrupts e (tr1 ++ tr2) c =
  (interrupts e tr1 c + interrupts e tr2 (run tr1 c))%nat.
Proof.
  induction tr1 as [|ev tr1 IH]; intros tr2 c; [reflexivity|].
  cbn [app interrupts run fold_left]. rewrite IH. unfold run. lia.
Qed.

Lemma tally_press_block : forall m,
  fst (tally (serial m)) = false ->
  tally (serial (press_block m)) =
  (false, if press_settled m then reported_falls m + fall_count m else reported_falls m).
Proof.
  intros m H. unfold reported_falls. destruct (press_settled m) eqn:E.
  - destruct (press_block_fires m E) as (-> & _).
    change [Print pressed_msg; PrintlnInt (fall_count m)]
      with ([Print pressed_msg] ++ [PrintlnInt (fall_count m)]).
    rewrite app_assoc, !tally_snoc. reflexivity.
  - rewrite (press_block_idle m E). destruct (tally (serial m)). cbn in *. subst. reflexivity.
Qed.

Lemma tally_release_block : forall m,
  fst (tally (serial m)) = false ->
  tally (serial (release_block m)) = (false, reported_falls m).
Proof.
  intros m H. unfold reported_falls. destruct (release_settled m) eqn:E.
  - destruct (release_block_fires m E) as (-> & _).
    change [Print released_msg; PrintlnInt (rise_count m)]
      with ([Print released_msg] ++ [PrintlnInt (rise_count m)]).
    rewrite app_assoc, !tally_snoc. reflexivity.
  - rewrite (release_block_idle m E). destruct (tally (serial m)). cbn in *. subst. reflexivity.
Qed.

Lemma tally_service : forall m,
  fst (tally (serial m)) = false ->
  tally (serial (service m)) = (false, reported_falls m).
Proof.
  intros m H. unfold reported_falls.
  assert (E : serial (service m) = serial m \/ exists s, serial (service m) = serial m ++ [Println s]).
  { clear. destruct m as [ck s2 i r g se lt fc rc pr ld fl lf ft st].
    unfold service, transition. msimpl.
    repeat (case_cond; msimpl); eauto. }
  destruct E as [-> | [s ->]].
  - destruct (tally (serial m)). cbn in *. subst. reflexivity.
  - rewrite tally_snoc. reflexivity.
Qed.

Lemma tallied_exec : forall c n, tallied c n -> tallied (exec c) n.
Proof.
  intros [p m] n (H1 & H2 & H3 & H4). unfold tallied, reported_falls in *.
  cbn [fst snd] in H1, H2, H3, H4.
  destruct (pc_eq_L91 p) as [-> | Hp].
  - cbn [exec fst snd is_L71 is_L72] in *.
    rewrite (tally_service m H4).
    destruct (service_frame m) as (_ & _ & -> & _). cbn [fst snd].
    unfold reported_falls. auto.
  - destruct p; try congruence; cbn [exec];
      try match goal with
          | |- context [if ?b then (_, _) else _] => destruct b
          end;
      destruct m as [ck s2 i r g se lt fc rc pr ld fl lf ft st];
      unfold setup_pins, setup_stamp, toggle, attachInterrupt,
        Serial_print, Serial_println_int in *;
      cbn [fst snd is_L71 is_L72 serial fall_count rise_count set_isr set_RED_LED
           set_GREEN_LED set_serial set_last_time set_fall_count set_rise_count
           set_pressed set_led set_last_flash millis clock led] in *;
      rewrite ?tally_snoc;
      destruct (tally se) as [a t]; cbn [fst snd tally_step] in *; subst a;
      cbn [String.eqb Ascii.eqb Bool.eqb pressed_msg released_msg];
      repeat split; try lia; try reflexivity.
Qed.

Lemma tallied_loop : forall m n, tallied (L69a, m) n -> tallied (L69a, loop m) n.
Proof.
  intros m n (H1 & H2 & H3 & H4). unfold tallied in *.
  cbn [fst snd is_L71 is_L72] in *.
  assert (T : tally (serial (loop m)) =
              (false, if press_settled m then reported_falls m + fall_count m
                      else reported_falls m)).
  { unfold loop.
    destruct (flash_block_frame (service (release_block (press_block m))))
      as (_ & _ & _ & _ & _ & _ & _ & _ & ->).
    pose proof (tally_press_block m H4) as T1.
    assert (A1 : fst (tally (serial (press_block m))) = false) by (rewrite T1; reflexivity).
    pose proof (tally_release_block _ A1) as T2.
    assert (A2 : fst (tally (serial (release_block (press_block m)))) = false)
      by (rewrite T2; reflexivity).
    rewrite (tally_service _ A2). unfold reported_falls at 1. rewrite T2.
    cbn [snd]. unfold reported_falls at 1. rewrite T1. reflexivity. }
  destruct (loop_effects m) as (_ & _ & _ & _ & Ef & _).
  unfold reported_falls at 1 2. rewrite T, Ef. cbn [fst snd].
  destruct (press_settled m); repeat split; try lia.
Qed.

Lemma tallied_step : forall c ev n,
  tallied c n ->
  (Z.of_nat (n + if fires FALLING ev (snd c) then 1 else 0) < 2 ^ 15) ->
  tallied (step c ev) (n + if fires FALLING ev (snd c) then 1 else 0).
Proof.
  intros [p m] ev n H Hn. destruct ev as [|e| |]; cbn [step fst snd fires] in *.
  - rewrite Nat.add_0_r. destruct H as (H1 & H2 & H3 & H4).
    destruct m as [ck s2 i r g se lt fc rc pr ld fl lf ft st].
    unfold tallied, reported_falls in *. cbn in *. auto.
  - destruct H as (H1 & H2 & H3 & H4).
    destruct m as [ck s2 [[|]|] r g se lt fc rc pr ld fl lf ft st], e;
      unfold tallied, reported_falls in *;
      cbn [fst snd fires pin_edge set_S2 isr falling rising serial fall_count
           rise_count set_fall_count set_rise_count set_last_time millis clock] in *;
      rewrite ?Nat.add_0_r; auto.
    rewrite to_int_small by lia.
    repeat split; try lia; auto. destruct (is_L72 p); lia.
  - rewrite Nat.add_0_r. apply tallied_exec, H.
  - rewrite Nat.add_0_r. destruct p; try exact H. apply tallied_loop, H.
Qed.

Lemma tallied_run : forall tr,
  Z.of_nat (interrupts FALLING tr power_up) < 2 ^ 15 ->
  tallied (run tr power_up) (interrupts FALLING tr power_up).
Proof.
  induction tr as [|ev tr IH] using rev_ind; intros Hn.
  - unfold tallied, reported_falls. cbn. repeat split; lia.
  - rewrite interrupts_app in *. rewrite run_app.
    cbn [interrupts run fold_left] in *. rewrite Nat.add_0_r in *.
    apply tallied_step; [apply IH; lia | exact Hn].
Qed.

(** X12.  In every trace from power-up, with interrupts anywhere and fewer
    than 2^15 falling interrupts taken: the counts reported for presses add up
    to at most the number of falling interrupts taken, and at the top of
    [loop] so do the reported counts plus the count not yet reported.  No edge
    is reported twice. *)
Theorem no_edge_is_reported_twice : forall tr,
  Z.of_nat (interrupts FALLING tr power_up) < 2 ^ 15 ->
  0 <= reported_falls (snd (run tr power_up))
     <= Z.of_nat (interrupts FALLING tr power_up)
  /\ (fst (run tr power_up) = L69a ->
      reported_falls (snd (run tr power_up)) + fall_count (snd (run tr power_up))
      <= Z.of_nat (interrupts FALLING tr power_up)).
Proof.
  intros tr Hn. destruct (tallied_run tr Hn) as (H1 & H2 & H3 & _).
  split.
  - split; [exact H2|]. destruct (is_L72 (fst (run tr power_up))); lia.
  - intros Hp. rewrite Hp in H3. exact H3.
Qed.

Lemma no_edge_is_reported_twice_witness :
  0 <= reported_falls (snd (run late_bounce_trace power_up))
     <= Z.of_nat (interrupts FALLING late_bounce_trace power_up)
  /\ reported_falls (snd (run late_bounce_trace power_up))
     + fall_count (snd (run late_bounce_trace power_up))
     <= Z.of_nat (interrupts FALLING late_bounce_trace power_up).
Proof.
  destruct (no_edge_is_reported_twice late_bounce_trace) as [H1 H2].
  - vm_compute. reflexivity.
  - split; [exact H1 | apply H2; vm_compute; reflexivity].
Defined.

(** ** Every report has an edge of its own *)

Lemma backed_exec : forall c n, tallied c n -> backed c -> backed (exec c).
Proof.
  intros [p m] n (H1 & H2 & H3 & H4) (B1 & B2).
  unfold tallied, backed, reported_falls, pressed_events in *.
  cbn [fst snd] in H1, H2, H3, H4, B1, B2.
  destruct (pc_eq_L91 p) as [-> | Hp].
  - cbn [exec fst snd is_L71 in_press_report] in *.
    rewrite (tally_service m H4).
    destruct (service_frame m) as (_ & _ & _ & _ & _ & E & _).
    unfold pressed_events in E. rewrite E. cbn [snd]. unfold reported_falls.
    split; [lia | discriminate].
  - destruct p; try congruence; cbn [exec];
      try match goal with
          | |- context [if ?b then (_, _) else _] => destruct b eqn:Eb
          end;
      destruct m as [ck s2 i r g se lt fc rc pr ld fl lf ft st];
      unfold setup_pins, setup_stamp, toggle, attachInterrupt, fall_seen,
        Serial_print, Serial_println_int in *;
      cbn [fst snd is_L71 is_L72 in_press_report serial fall_count rise_count set_isr
           set_RED_LED set_GREEN_LED set_serial set_last_time set_fall_count
           set_rise_count set_pressed set_led set_last_flash millis clock led] in *;
      rewrite ?tally_snoc, ?filter_app, ?length_app;
      cbn [filter is_report List.length];
      destruct (tally se) as [a t]; cbn [fst snd tally_step] in *; subst a;
      cbn [String.eqb Ascii.eqb Bool.eqb pressed_msg released_msg filter List.length];
      (split; [try lia | try discriminate; auto]).
    all: try (intros _; rewrite negb_true_iff in Eb; apply Z.eqb_neq in Eb; lia).
    all: try (specialize (B2 eq_refl); lia).
Qed.

Lemma backed_loop : forall m n,
  tallied (L69a, m) n -> backed (L69a, m) -> backed (L69a, loop m).
Proof.
  intros m n (H1 & H2 & H3 & H4) (B1 & _). unfold backed in *.
  cbn [fst snd is_L71 is_L72 in_press_report] in *.
  split; [|discriminate].
  destruct (tallied_loop m n (conj H1 (conj H2 (conj H3 H4)))) as (_ & _ & _ & T).
  cbn [fst snd is_L71] in T.
  destruct (loop_effects m) as (_ & _ & Ee & _).
  rewrite Ee.
  assert (R : reported_falls (loop m) =
              if press_settled m then reported_falls m + fall_count m
              else reported_falls m).
  { unfold reported_falls at 1. unfold loop.
    destruct (flash_block_frame (service (release_block (press_block m))))
      as (_ & _ & _ & _ & _ & _ & _ & _ & ->).
    pose proof (tally_press_block m H4) as T1.
    assert (A1 : fst (tally (serial (press_block m))) = false) by (rewrite T1; reflexivity).
    pose proof (tally_release_block _ A1) as T2.
    assert (A2 : fst (tally (serial (release_block (press_block m)))) = false)
      by (rewrite T2; reflexivity).
    rewrite (tally_service _ A2). cbn [snd]. unfold reported_falls at 1. rewrite T2.
    cbn [snd]. unfold reported_falls at 1. rewrite T1. reflexivity. }
  rewrite R. destruct (press_settled m) eqn:E; [|lia].
  apply press_settled_iff in E. lia.
Qed.

Lemma backed_step : forall c ev n,
  tallied c n -> backed c ->
  (Z.of_nat (n + if fires FALLING ev (snd c) then 1 else 0) < 2 ^ 15) ->
  backed (step c ev).
Proof.
  intros [p m] ev n T B Hn. destruct ev as [|e| |]; cbn [step fst snd fires] in *.
  - destruct B as (B1 & B2).
    destruct m as [ck s2 i r g se lt fc rc pr ld fl lf ft st].
    unfold backed, reported_falls, pressed_events in *. cbn in *. auto.
  - destruct T as (H1 & _). destruct B as (B1 & B2).
    destruct m as [ck s2 [[|]|] r g se lt fc rc pr ld fl lf ft st], e;
      unfold backed, reported_falls, pressed_events in *;
      cbn [fst snd fires pin_edge set_S2 isr falling rising serial fall_count
           rise_count set_fall_count set_rise_count set_last_time millis clock] in *;
      auto.
    rewrite to_int_small by lia. split; [exact B1 | intros; lia].
  - apply (backed_exec _ n); assumption.
  - destruct p; try exact B. apply (backed_loop _ n); assumption.
Qed.

Lemma backed_run : forall tr,
  Z.of_nat (interrupts FALLING tr power_up) < 2 ^ 15 ->
  backed (run tr power_up).
Proof.
  induction tr as [|ev tr IH] using rev_ind; intros Hn.
  - unfold backed, reported_falls, pressed_events. cbn. split; [lia | discriminate].
  - rewrite interrupts_app in Hn. rewrite run_app.
    cbn [interrupts run fold_left] in *. rewrite Nat.add_0_r in Hn.
    apply (backed_step _ _ (interrupts FALLING tr power_up)).
    + apply tallied_run. lia.
    + apply IH. lia.
    + exact Hn.
Qed.

(** X13.  In every trace from power-up, with interrupts anywhere and fewer
    than 2^15 falling interrupts taken, the number of presses reported is at
    most the number of falling interrupts taken: no press is reported without
    an edge of its own. *)
Theorem no_press_without_an_edge : forall tr,
  Z.of_nat (interrupts FALLING tr power_up) < 2 ^ 15 ->
  (pressed_events (snd (run tr power_up)) <= interrupts FALLING tr power_up)%nat.
Proof.
  intros tr Hn.
  destruct (tallied_run tr Hn) as (H1 & H2 & H3 & _).
  destruct (backed_run tr Hn) as (B1 & B2).
  destruct (run tr power_up) as [p m]. cbn [fst snd] in *.
  destruct p; cbn [is_L71 is_L72 in_press_report] in *;
    try specialize (B2 eq_refl); lia.
Qed.

Lemma no_press_without_an_edge_witness :
  (pressed_events (snd (run late_bounce_trace power_up))
   <= interrupts FALLING late_bounce_trace power_up)%nat.
Proof.
  apply (no_press_without_an_edge late_bounce_trace). vm_compute. reflexivity.
Defined.

(** ** One pass, and the window after an interrupt *)

(** X2.  What one uninterrupted pass through [loop] does: the state advances
    to its successor exactly when the press settle condition holds (or a press
    was still flagged), never on a release; [pressed] is false afterwards;
    one press (release) report is added exactly when the press (release)
    settle condition holds, and that count is reset; the time stamps are not
    written. *)
Theorem pass_summary : forall m,
  state (loop m) = (if press_settled m || pressed m then successor (state m) else state m)
  /\ pressed (loop m) = false
  /\ pressed_events (loop m) =
     (pressed_events m + if press_settled m then 1 else 0)%nat
  /\ released_events (loop m) =
     (released_events m + if release_settled m then 1 else 0)%nat
  /\ fall_count (loop m) = (if press_settled m then 0 else fall_count m)
  /\ rise_count (loop m) = (if release_settled m then 0 else rise_count m)
  /\ millis (loop m) = millis m
  /\ last_time (loop m) = last_time m.
Proof. exact loop_effects. Qed.

(** X4.  [k] milliseconds after an interrupt routine ran (k < 2^32), the
    time test of lines 69 and 80 holds exactly when k > 50, whatever the value
    of the millisecond counter was, also across its rollover; so the settle
    condition of that direction holds exactly when k > 50 and its count is
    non-zero. *)
Theorem debounce_window_is_exact : forall m k,
  Z.of_nat k < 2 ^ 32 ->
  quiet (wait k (falling m)) = (DEBOUNCE_TIME <? Z.of_nat k)
  /\ quiet (wait k (rising m)) = (DEBOUNCE_TIME <? Z.of_nat k)
  /\ press_settled (wait k (falling m)) =
     negb (to_int (fall_count m + 1) =? 0) && (DEBOUNCE_TIME <? Z.of_nat k)
  /\ release_settled (wait k (rising m)) =
     negb (to_int (rise_count m + 1) =? 0) && (DEBOUNCE_TIME <? Z.of_nat k).
Proof. exact debounce_window. Qed.

Lemma debounce_window_is_exact_witness :
  quiet (wait 51 (falling (set_clock (2 ^ 32 - 5) (setup reset))))
  = (DEBOUNCE_TIME <? Z.of_nat 51)
  /\ quiet (wait 51 (rising (set_clock (2 ^ 32 - 5) (setup reset))))
     = (DEBOUNCE_TIME <? Z.of_nat 51)
  /\ press_settled (wait 51 (falling (set_clock (2 ^ 32 - 5) (setup reset))))
     = negb (to_int (fall_count (set_clock (2 ^ 32 - 5) (setup reset)) + 1) =? 0)
       && (DEBOUNCE_TIME <? Z.of_nat 51)
  /\ release_settled (wait 51 (rising (set_clock (2 ^ 32 - 5) (setup reset))))
     = negb (to_int (rise_count (set_clock (2 ^ 32 - 5) (setup reset)) + 1) =? 0)
       && (DEBOUNCE_TIME <? Z.of_nat 51).
Proof.
  apply (debounce_window_is_exact (set_clock (2 ^ 32 - 5) (setup reset)) 51).
  reflexivity.
Defined.
